(** * The server data store of the app frontend (store/servers.ts)

    A shallow embedding of the Pinia store [useServerStore]: its state
    (the [serverData] cache and the [error] slot), its actions and its
    getters, followed by the properties of the store that its
    specification states.

    Conventions of the embedding.
    - A JavaScript object read by fixed field names (a server record, a
      partial record) is the finite map of its own properties
      ([gmap string _]).  The cache is read and written by keys that come
      from the caller, so it is modelled with its prototype: a read that
      finds no own property goes on to the prototype, and the members of
      [Object.prototype] are there under their names.
    - An [async] action is a state transformer over a [World]: the store,
      the backend the fetch helpers talk to, and the console.  One call
      runs from its start to its completion; what other calls do to the
      store while it is suspended at an [await] is outside the model.
    - [throw] and [try]/[catch] are a completion ([Return] or [Throw])
      threaded through the monad; state changes made before a [throw]
      stay. *)

From stdpp Require Import gmap strings list fin_maps pretty sorting.

Local Open Scope string_scope.
Local Open Scope list_scope.

(** ** JavaScript values *)

(** JSON data, as the backend sends it and as request bodies carry it.
    Numbers are the integer-valued ones. *)
#[warnings="-register-all"]
Inductive Json : Type :=
| JNull
| JBool (b : bool)
| JNumber (n : Z)
| JString (s : string)
| JArray (items : list Json)
| JObject (members : list (string * Json)).

Module JsonOps.

(** [ToBoolean]: what [if (x)] tests. *)
Definition toBoolean (j : Json) : bool :=
  match j with
  | JNull => false
  | JBool b => b
  | JNumber n => negb (n =? 0)%Z
  | JString s => negb (String.eqb s "")
  | JArray _ | JObject _ => true
  end.

(** [ToString]: what a template literal does to an interpolated value.
    An array is the comma-joined conversion of its elements, with
    [null] elements contributing the empty string.  A number is written
    in decimal, as JavaScript writes the integers below 10^21. *)
Fixpoint toString (j : Json) : string :=
  match j with
  | JNull => "null"
  | JBool true => "true"
  | JBool false => "false"
  | JNumber n => pretty n
  | JString s => s
  | JArray items =>
      (fix join (l : list Json) : string :=
         match l with
         | [] => ""
         | x :: rest =>
             let sx := match x with JNull => "" | _ => toString x end in
             match rest with
             | [] => sx
             | _ => sx +:+ "," +:+ join rest
             end
         end) items
  | JObject _ => "[object Object]"
  end.

End JsonOps.

(** Modelled from the spec: the declaration of [ServerBackup]
    (types/servers) is not part of the sources at hand; a backup is "a
    named, timestamped snapshot" with an identifier, a name and a
    creation timestamp.  The timestamp is a string, compared the way
    JavaScript compares strings. *)
Module ServerBackup.
Record t : Type := mk { id : string; name : string; created_at : string }.
End ServerBackup.

(** Modelled from the spec: the declaration of [Project] (types/servers)
    is not part of the sources at hand; of the catalog metadata the store
    reads [id] and [project_id]. *)
Module Project.
Record t : Type := mk { id : string; project_id : string }.
End Project.

(** The value of a field of a server record: absent ([undefined]), JSON
    from the backend, or one of the two typed values the store attaches. *)
Inductive Value : Type :=
| VUndefined
| VJson (j : Json)
| VProject (p : Project.t)
| VBackups (l : list ServerBackup.t).

Module ValueOps.

Definition toBoolean (v : Value) : bool :=
  match v with
  | VUndefined => false
  | VJson j => JsonOps.toBoolean j
  | VProject _ | VBackups _ => true
  end.

Definition toString (v : Value) : string :=
  match v with
  | VUndefined => "undefined"
  | VJson j => JsonOps.toString j
  | VProject _ => "[object Object]"
  | VBackups l =>
      (fix join (l : list ServerBackup.t) : string :=
         match l with
         | [] => ""
         | _ :: rest =>
             match rest with
             | [] => "[object Object]"
             | _ => "[object Object]" +:+ "," +:+ join rest
             end
         end) l
  end.

End ValueOps.

(** [Server] and [Partial<Server>] are objects: finite maps from field
    names to values. *)
Abbreviation Server := (gmap string Value).

(** [obj.field]: a missing property reads as [undefined]. *)
Definition prop (obj : Server) (field : string) : Value :=
  default VUndefined (obj !! field).

(** [{ ...a, ...b }]: the properties of [b] win over those of [a]. *)
Definition spread (a b : Server) : Server := b ∪ a.

(** [project as Project | null], stored in a field. *)
Definition project_value (p : option Project.t) : Value :=
  match p with
  | Some p => VProject p
  | None => VJson JNull
  end.

(** ** The cache object

    [serverData] starts as the plain object [{}] and is indexed by
    whatever string the caller passes.  A read [serverData[key]] finds
    the own property, or else what the prototype chain has under that
    name; a write [serverData[key] = record] makes or updates an own
    property, except that ["__proto__"] written through to the accessor
    of [Object.prototype] replaces the prototype of the object. *)

(** The names [Object.prototype] has members under. *)
Definition Object_prototype : list string :=
  ["constructor"; "__defineGetter__"; "__defineSetter__"; "hasOwnProperty";
   "__lookupGetter__"; "__lookupSetter__"; "isPrototypeOf"; "propertyIsEnumerable";
   "toString"; "valueOf"; "__proto__"; "toLocaleString"].

(** What [serverData[key]] can evaluate to: [undefined], a record (an own
    entry, or the prototype read through [__proto__]), the value of a
    field of a record that has become the prototype, or a member of
    [Object.prototype] (a function, or under ["__proto__"] that object
    itself). *)
Inductive Member : Type :=
| MUndefined
| MServer (record : Server)
| MValue (v : Value)
| MBuiltin (name : string).

(** The object: its own properties, and its prototype when that is no
    longer [Object.prototype] but a record (whose own prototype is
    [Object.prototype]). *)
Record Dict : Type := mkDict {
  own : gmap string Server;
  proto : option Server
}.

(** The index of an array element or of a character, as a property name. *)
Definition indexed {A} (f : A → Value) (l : list A) : Server :=
  list_to_map (imap (λ i x, (pretty i, f x)) l).

Module MemberOps.

(** The own enumerable properties of a value, which [{ ...v }] copies:
    the characters of a string and the elements of an array under
    their indices, the members of an object; a number, a boolean,
    [null] and [undefined] have none. *)
Definition properties_of_value (v : Value) : Server :=
  match v with
  | VUndefined => ∅
  | VJson (JString s) =>
      indexed (λ c, VJson (JString (String c ""))) (String.list_ascii_of_string s)
  | VJson (JArray items) => indexed VJson items
  | VJson (JObject members) =>
      foldl (λ fields member, <[member.1 := VJson member.2]> fields) ∅ members
  | VJson _ => ∅
  | VProject p =>
      <["id" := VJson (JString (Project.id p))]>
        (<["project_id" := VJson (JString (Project.project_id p))]> ∅)
  | VBackups l =>
      indexed
        (λ b, VJson (JObject [("id", JString (ServerBackup.id b));
                              ("name", JString (ServerBackup.name b));
                              ("created_at", JString (ServerBackup.created_at b))]))
        l
  end.

Definition toBoolean (m : Member) : bool :=
  match m with
  | MUndefined => false
  | MServer _ | MBuiltin _ => true
  | MValue v => ValueOps.toBoolean v
  end.

(** [{ ...m }]: the members of [Object.prototype] have no enumerable
    property of their own. *)
Definition properties (m : Member) : Server :=
  match m with
  | MUndefined | MBuiltin _ => ∅
  | MServer record => record
  | MValue v => properties_of_value v
  end.

End MemberOps.

(** What a read finds above the own properties and the fields of a
    record prototype: the accessor [__proto__] gives the prototype of
    the object, the other names of [Object.prototype] its members. *)
Definition inherited (p : option Server) (key : string) : Member :=
  if decide (key = "__proto__") then
    match p with
    | Some d => MServer d
    | None => MBuiltin "__proto__"
    end
  else if bool_decide (key ∈ Object_prototype) then MBuiltin key
  else MUndefined.

(** A field of a record prototype, read through the cache. *)
Definition field_member (v : Value) : Member :=
  match v with
  | VUndefined => MUndefined
  | _ => MValue v
  end.

(** [serverData[key]] *)
Definition lookup_member (c : Dict) (key : string) : Member :=
  match own c !! key with
  | Some record => MServer record
  | None =>
      match proto c with
      | Some d =>
          match d !! key with
          | Some v => field_member v
          | None => inherited (Some d) key
          end
      | None => inherited None key
      end
  end.

(** [serverData[key] = record]: an own property, or a data property of
    a record prototype, is answered by an own property; otherwise the
    write reaches [Object.prototype], where ["__proto__"] is a setter
    that makes [record] the prototype, and any other name gives an own
    property. *)
Definition assign (c : Dict) (key : string) (record : Server) : Dict :=
  match own c !! key, proto c ≫= (λ d, d !! key) with
  | None, None =>
      if decide (key = "__proto__") then {| own := own c; proto := Some record |}
      else {| own := <[key := record]> (own c); proto := proto c |}
  | _, _ => {| own := <[key := record]> (own c); proto := proto c |}
  end.

(** ** Errors and thrown values *)

Record Error : Type := new_Error { message : string }.

(** Anything can be thrown; [instanceof Error] tells the two apart. *)
Inductive Thrown : Type :=
| ThrownError (e : Error)
| ThrownValue (v : Value).

Definition instanceof_Error (t : Thrown) : option Error :=
  match t with
  | ThrownError e => Some e
  | ThrownValue _ => None
  end.

(** The value of the expression [this.error], of type [Error | null]. *)
Definition slot_value (slot : option Error) : Thrown :=
  match slot with
  | Some e => ThrownError e
  | None => ThrownValue (VJson JNull)
  end.

(** ** Array.prototype.sort

    The comparator of this store never answers 0, so what the sort does
    with it is the engine's business.  The engines the app runs in (V8,
    JavaScriptCore) decide every step of their stable sorts by testing
    [compareFn(x, y) < 0] alone; the model is the insertion of each
    element, from left to right, behind every element of the sorted
    prefix that it is not strictly before. *)
Module Array.
Section Sort.
Context {A : Type} (compareFn : A → A → Z).

Fixpoint insert (x : A) (sorted : list A) : list A :=
  match sorted with
  | [] => [x]
  | y :: rest =>
      if (compareFn x y <? 0)%Z then x :: y :: rest
      else y :: insert x rest
  end.

Definition sort (l : list A) : list A :=
  foldl (λ acc x, insert x acc) [] l.
End Sort.
End Array.

(** [a > b] on strings.  The strings here are sequences of bytes and
    are compared byte by byte; JavaScript compares UTF-16 code units,
    which is the same order on ASCII text such as timestamps. *)
Definition js_gt (a b : string) : bool := negb (String.leb a b).

(** ** The store's state *)

Record ServerState : Type := mkState {
  serverData : Dict;
  error : option Error
}.

(** [state: () => ({ serverData: {}, error: null })] *)
Definition state : ServerState :=
  {| serverData := {| own := ∅; proto := None |}; error := None |}.

(** ** Getters *)

Definition getServerData (st : ServerState) (serverId : string) : Member :=
  lookup_member (serverData st) serverId.

Definition hasError (st : ServerState) : bool :=
  match error st with
  | Some _ => true
  | None => false
  end.

(** ** The world an action runs in *)

Inductive Method : Type := POST | PUT | DELETE.

(** The options object handed to [usePyroFetch]. *)
Record PyroOptions : Type := mkOptions {
  session : option string;
  method : option Method;
  body : option Json
}.

Definition no_options : PyroOptions :=
  {| session := None; method := None; body := None |}.

(** [{ servers: Server[] }] *)
Record ServerList : Type := mkServerList { servers : list Server }.

(** The type argument of a fetch, and the values of that type. *)
Inductive Payload : Type :=
| TServer | TServerList | TBackups | TProject | TProjectOrNull | TAny.

Definition payload (T : Payload) : Type :=
  match T with
  | TServer => Server
  | TServerList => ServerList
  | TBackups => list ServerBackup.t
  | TProject => Project.t
  | TProjectOrNull => option Project.t
  | TAny => Json
  end.

Inductive LogEntry : Type :=
| console_error_entry (msg : string) (what : Thrown)
| console_warn_entry (msg : string).

Record World (Backend : Type) : Type := mkWorld {
  store : ServerState;
  backend : Backend;
  console : list LogEntry
}.
Arguments mkWorld {Backend} _ _ _.
Arguments store {Backend} _.
Arguments backend {Backend} _.
Arguments console {Backend} _.

Inductive Completion (A : Type) : Type :=
| Return (a : A)
| Throw (t : Thrown).
Arguments Return {A} _.
Arguments Throw {A} _.


(** ** Actions *)

(** The two fetch helpers ([@/helpers/pyroFetch], [@/helpers/fetch]) are
    outside this module: they are a backend that answers each request
    with a value of the requested type or with a thrown value, and moves
    on to its next state. *)
Class Fetcher (Backend : Type) : Type := {
  pyro_backend :
    ∀ T : Payload, string → PyroOptions → Backend → (Thrown + payload T) * Backend;
  catalog_backend :
    ∀ T : Payload, string → Backend → (Thrown + payload T) * Backend
}.

Section Store.

Context `{Fetcher Backend}.

Definition Action (A : Type) : Type :=
  World Backend → Completion A * World Backend.

#[global] Instance Action_ret : MRet Action := λ A a w, (Return a, w).

#[global] Instance Action_bind : MBind Action := λ A B f m w,
  match m w with
  | (Return a, w') => f a w'
  | (Throw t, w') => (Throw t, w')
  end.

Definition throw {A} (t : Thrown) : Action A := λ w, (Throw t, w).

(** [try { body } catch (error) { handler }] *)
Definition try_catch {A} (body : Action A) (handler : Thrown → Action A) : Action A :=
  λ w,
    match body w with
    | (Return a, w') => (Return a, w')
    | (Throw t, w') => handler t w'
    end.

(** [this.serverData], [this.error] *)
Definition this : Action ServerState := λ w, (Return (store w), w).

(** [this.serverData[serverId] = data] *)
Definition set_serverData (serverId : string) (data : Server) : Action () :=
  λ w,
    (Return (),
     mkWorld {| serverData := assign (serverData (store w)) serverId data;
                error := error (store w) |}
             (backend w) (console w)).

(** [this.error = slot] *)
Definition set_error (slot : option Error) : Action () :=
  λ w,
    (Return (),
     mkWorld {| serverData := serverData (store w); error := slot |}
             (backend w) (console w)).

Definition console_error (msg : string) (what : Thrown) : Action () :=
  λ w, (Return (),
        mkWorld (store w) (backend w) (console w ++ [console_error_entry msg what])).

Definition console_warn (msg : string) : Action () :=
  λ w, (Return (),
        mkWorld (store w) (backend w) (console w ++ [console_warn_entry msg])).

Definition answer {T : Payload} (w : World Backend)
    (r : (Thrown + payload T) * Backend) : Completion (payload T) * World Backend :=
  (match r.1 with inl t => Throw t | inr a => Return a end,
   mkWorld (store w) r.2 (console w)).

(** [await usePyroFetch<T>(path, options)] *)
Definition usePyroFetch (T : Payload) (path : string) (options : PyroOptions)
    : Action (payload T) :=
  λ w, answer w (pyro_backend T path options (backend w)).

(** [await useFetch(path)], the result read at type [T] *)
Definition useFetch (T : Payload) (path : string) : Action (payload T) :=
  λ w, answer w (catalog_backend T path (backend w)).

(** [toRaw] hands back the object behind a reactive proxy; on what the
    fetch helper returns it is the identity. *)
Definition toRaw {A} (x : A) : A := x.

Definition with_session (auth : string) : PyroOptions :=
  {| session := Some auth; method := None; body := None |}.

Definition with_method (m : Method) : PyroOptions :=
  {| session := None; method := Some m; body := None |}.

Definition with_body (m : Method) (b : Json) : PyroOptions :=
  {| session := None; method := Some m; body := Some b |}.

(** The shape shared by most actions: one request, and on failure a
    log line and the caught value thrown again. *)
Definition logged {A} (msg : string) (body : Action A) : Action A :=
  try_catch body (λ caught, console_error msg caught ;; throw caught).

Definition fetchModpackVersion (modpackId : string) : Action Project.t :=
  logged "Error fetching modpack version:"
    (result ← toRaw (useFetch TProject ("version/" +:+ modpackId));
     mret result).

Definition fetchProject (projectId : string) : Action (option Project.t) :=
  logged "Error fetching project:"
    (toRaw (useFetch TProjectOrNull ("project/" +:+ projectId))).

(** [(a, b) => (a.created_at > b.created_at ? -1 : 1)] *)
Definition by_created_at (a b : ServerBackup.t) : Z :=
  if js_gt (ServerBackup.created_at a) (ServerBackup.created_at b) then -1 else 1.

Definition fetchServerBackups (auth serverId : string) : Action (list ServerBackup.t) :=
  logged "Error fetching server backups:"
    (result ← usePyroFetch TBackups ("servers/" +:+ serverId +:+ "/backups")
                (with_session auth);
     mret (Array.sort by_created_at result)).

(** The interpolation of [data.modpack] into the request path happens
    in [fetchModpackVersion]; the conversion to a string is written at
    the call. *)
Definition fetchServerData (auth serverId : string) : Action () :=
  try_catch
    (data ← usePyroFetch TServer ("servers/" +:+ serverId) (with_session auth);
     data ← (if ValueOps.toBoolean (prop data "modpack") then
               pid ← fetchModpackVersion (ValueOps.toString (prop data "modpack"));
               project ← fetchProject (Project.project_id pid);
               mret (<["project" := project_value project]>
                       (<["modpack_id" := VJson (JString (Project.id pid))]> data))
             else mret data);
     backups ← fetchServerBackups auth serverId;
     set_serverData serverId (<["backups" := VBackups backups]> data) ;;
     set_error None)
    (λ caught,
       console_error "(PYROFETCH) Error fetching server data:" caught ;;
       set_error (Some (match instanceof_Error caught with
                        | Some e => e
                        | None => new_Error "An unknown error occurred"
                        end)) ;;
       st ← this;
       throw (slot_value (error st))).

Definition listServers (auth : string) : Action ServerList :=
  try_catch
    (usePyroFetch TServerList "servers" (with_session auth))
    (λ caught,
       console_error "Error listing servers:" caught ;;
       st ← this;
       throw (slot_value (error st))).

Definition updateServerData (serverId : string) (data : Server) : Action () :=
  st ← this;
  if negb (MemberOps.toBoolean (lookup_member (serverData st) serverId)) then
    console_warn
      ("Attempting to update non-existent server data for server ID: " +:+ serverId)
  else
    st ← this;
    set_serverData serverId
      (spread (MemberOps.properties (lookup_member (serverData st) serverId)) data).

Definition requestWebsocket (serverId : string) : Action Json :=
  logged "Error requesting websocket:"
    (usePyroFetch TAny ("servers/" +:+ serverId +:+ "/ws") no_options).

Definition sendPowerAction (serverId action : string) : Action () :=
  logged "Error changing power state:"
    (usePyroFetch TAny ("servers/" +:+ serverId +:+ "/power")
       (with_body POST (JObject [("action", JString action)])) ;;
     mret ()).

Definition updateServerName (serverId newName : string) : Action () :=
  logged "Error updating server name:"
    (usePyroFetch TAny ("servers/" +:+ serverId +:+ "/name")
       (with_body POST (JObject [("name", JString newName)])) ;;
     st ← this;
     if MemberOps.toBoolean (lookup_member (serverData st) serverId) then
       st ← this;
       set_serverData serverId
         (spread (MemberOps.properties (lookup_member (serverData st) serverId))
            {["name" := VJson (JString newName)]})
     else
       console_warn
         ("Attempting to update name for non-existent server data. Server ID: "
          +:+ serverId)).

Definition createBackup (serverId backupName : string) : Action () :=
  logged "Error creating backup:"
    (usePyroFetch TAny ("servers/" +:+ serverId +:+ "/backups")
       (with_body POST (JObject [("name", JString backupName)])) ;;
     mret ()).

Definition renameBackup (serverId backupId newName : string) : Action () :=
  logged "Error renaming backup:"
    (usePyroFetch TAny
       ("servers/" +:+ serverId +:+ "/backups/" +:+ backupId +:+ "/rename")
       (with_body POST (JObject [("name", JString newName)])) ;;
     mret ()).

Definition deleteBackup (serverId backupId : string) : Action () :=
  logged "Error deleting backup:"
    (usePyroFetch TAny ("servers/" +:+ serverId +:+ "/backups/" +:+ backupId)
       (with_method DELETE) ;;
     mret ()).

Definition restoreBackup (serverId backupId : string) : Action () :=
  logged "Error restoring backup:"
    (usePyroFetch TAny
       ("servers/" +:+ serverId +:+ "/backups/" +:+ backupId +:+ "/restore")
       (with_method POST) ;;
     mret ()).

Definition downloadBackup (serverId backupId : string) : Action Json :=
  logged "Error downloading backup:"
    (usePyroFetch TAny ("servers/" +:+ serverId +:+ "/backups/" +:+ backupId)
       no_options).

Definition initiateWorldDownload (serverId : string) : Action () :=
  logged "Error initiating world download:"
    (usePyroFetch TAny ("servers/" +:+ serverId +:+ "/world") no_options ;;
     mret ()).

Definition getWorldDownloadURL (serverId : string) : Action Json :=
  logged "Error getting world download URL:"
    (usePyroFetch TAny ("servers/" +:+ serverId +:+ "/download") no_options).

Definition fetchConfigFile (serverId fileName : string) : Action Json :=
  logged "Error fetching config file:"
    (usePyroFetch TAny ("servers/" +:+ serverId +:+ "/config/" +:+ fileName)
       no_options).

Definition saveConfigFile (serverId fileName : string) (data : Json) : Action () :=
  logged "Error saving config file:"
    (usePyroFetch TAny ("servers/" +:+ serverId +:+ "/config/" +:+ fileName)
       (with_body PUT data) ;;
     mret ()).

Definition checkSubdomainAvailability (subdomain : string) : Action Json :=
  logged "Error checking subdomain availability:"
    (usePyroFetch TAny ("subdomains/" +:+ subdomain +:+ "/isavailable") no_options).

Definition changeSubdomain (serverId subdomain : string) : Action () :=
  logged "Error changing subdomain:"
    (usePyroFetch TAny ("servers/" +:+ serverId +:+ "/subdomain")
       (with_body POST (JObject [("subdomain", JString subdomain)])) ;;
     mret ()).

Definition installMod (serverId projectId versionId : string) : Action () :=
  logged "Error installing mod:"
    (usePyroFetch TAny ("servers/" +:+ serverId +:+ "/mods")
       (with_body POST
          (JObject [("rinth_ids",
                     JObject [("project_id", JString projectId);
                              ("version_id", JString versionId)])])) ;;
     mret ()).

Definition removeMod (serverId modId : string) : Action () :=
  logged "Error removing mod:"
    (usePyroFetch TAny ("servers/" +:+ serverId +:+ "/mods/" +:+ modId)
       (with_method DELETE) ;;
     mret ()).

Definition reinstallMod (serverId modId versionId : string) : Action () :=
  logged "Error reinstalling mod:"
    (usePyroFetch TAny ("servers/" +:+ serverId +:+ "/mods/" +:+ modId)
       (with_body POST (JObject [("version_id", JString versionId)])) ;;
     mret ()).

Definition reinstallServer (serverId projectId versionId : string) : Action () :=
  logged "Error reinstalling server:"
    (usePyroFetch TAny ("servers/" +:+ serverId +:+ "/reinstall")
       (with_body POST
          (JObject [("project_id", JString projectId);
                    ("version_id", JString versionId)])) ;;
     mret ()).

Definition clearError : Action () := set_error None.

(** ** Calls

    A call of an action of the store, and its run with the returned
    value dropped: what is left is whether it completed or threw, and
    the world it leaves. *)
Inductive Call : Type :=
| call_fetchServerData (auth serverId : string)
| call_listServers (auth : string)
| call_fetchModpackVersion (modpackId : string)
| call_fetchProject (projectId : string)
| call_fetchServerBackups (auth serverId : string)
| call_updateServerData (serverId : string) (data : Server)
| call_requestWebsocket (serverId : string)
| call_sendPowerAction (serverId action : string)
| call_updateServerName (serverId newName : string)
| call_createBackup (serverId backupName : string)
| call_renameBackup (serverId backupId newName : string)
| call_deleteBackup (serverId backupId : string)
| call_restoreBackup (serverId backupId : string)
| call_downloadBackup (serverId backupId : string)
| call_initiateWorldDownload (serverId : string)
| call_getWorldDownloadURL (serverId : string)
| call_fetchConfigFile (serverId fileName : string)
| call_saveConfigFile (serverId fileName : string) (data : Json)
| call_checkSubdomainAvailability (subdomain : string)
| call_changeSubdomain (serverId subdomain : string)
| call_installMod (serverId projectId versionId : string)
| call_removeMod (serverId modId : string)
| call_reinstallMod (serverId modId versionId : string)
| call_reinstallServer (serverId projectId versionId : string)
| call_clearError.

Definition void {A} (m : Action A) : Action () := m ;; mret ().

Definition run (c : Call) : Action () :=
  match c with
  | call_fetchServerData auth serverId => fetchServerData auth serverId
  | call_listServers auth => void (listServers auth)
  | call_fetchModpackVersion modpackId => void (fetchModpackVersion modpackId)
  | call_fetchProject projectId => void (fetchProject projectId)
  | call_fetchServerBackups auth serverId => void (fetchServerBackups auth serverId)
  | call_updateServerData serverId data => updateServerData serverId data
  | call_requestWebsocket serverId => void (requestWebsocket serverId)
  | call_sendPowerAction serverId action => sendPowerAction serverId action
  | call_updateServerName serverId newName => updateServerName serverId newName
  | call_createBackup serverId backupName => createBackup serverId backupName
  | call_renameBackup serverId backupId newName => renameBackup serverId backupId newName
  | call_deleteBackup serverId backupId => deleteBackup serverId backupId
  | call_restoreBackup serverId backupId => restoreBackup serverId backupId
  | call_downloadBackup serverId backupId => void (downloadBackup serverId backupId)
  | call_initiateWorldDownload serverId => initiateWorldDownload serverId
  | call_getWorldDownloadURL serverId => void (getWorldDownloadURL serverId)
  | call_fetchConfigFile serverId fileName => void (fetchConfigFile serverId fileName)
  | call_saveConfigFile serverId fileName data => saveConfigFile serverId fileName data
  | call_checkSubdomainAvailability subdomain =>
      void (checkSubdomainAvailability subdomain)
  | call_changeSubdomain serverId subdomain => changeSubdomain serverId subdomain
  | call_installMod serverId projectId versionId =>
      installMod serverId projectId versionId
  | call_removeMod serverId modId => removeMod serverId modId
  | call_reinstallMod serverId modId versionId => reinstallMod serverId modId versionId
  | call_reinstallServer serverId projectId versionId =>
      reinstallServer serverId projectId versionId
  | call_clearError => clearError
  end.

(** A sequence of calls: they run one after the other, a throw ending the call
    it happens in and nothing more.  The result is the world at the end
    and, call by call, how each one completed. *)
Fixpoint run_all (calls : list Call) (w : World Backend)
    : list (Call * Completion ()) * World Backend :=
  match calls with
  | [] => ([], w)
  | c :: rest =>
      let r := run c w in
      let rs := run_all rest r.2 in
      ((c, r.1) :: rs.1, rs.2)
  end.

(** ** The course of a call of [fetchServerData]

    The steps of the call, told from the side of the backend, state by
    state: the modpack of the fetched record is resolved (or there is
    none), and the call either gets as far as a record to store, or
    meets a failure at one of its requests, after the store's own
    actions have logged it. *)
Inductive Resolution (data : Server) (b1 : Backend) : Server → Backend → Prop :=
| resolution_none :
    ValueOps.toBoolean (prop data "modpack") = false →
    Resolution data b1 data b1
| resolution_modpack pid bv project b2 :
    ValueOps.toBoolean (prop data "modpack") = true →
    catalog_backend TProject ("version/" +:+ ValueOps.toString (prop data "modpack")) b1
      = (inr pid, bv) →
    catalog_backend TProjectOrNull ("project/" +:+ Project.project_id pid) bv
      = (inr project, b2) →
    Resolution data b1
      (<["project" := project_value project]>
         (<["modpack_id" := VJson (JString (Project.id pid))]> data))
      b2.

Inductive Success (auth serverId : string) (b : Backend) : Server → Backend → Prop :=
| success data b1 data' b2 result b3 :
    pyro_backend TServer ("servers/" +:+ serverId) (with_session auth) b = (inr data, b1) →
    Resolution data b1 data' b2 →
    pyro_backend TBackups ("servers/" +:+ serverId +:+ "/backups") (with_session auth) b2
      = (inr result, b3) →
    Success auth serverId b
      (<["backups" := VBackups (Array.sort by_created_at result)]> data') b3.

Inductive Failure (auth serverId : string) (b : Backend)
    : Thrown → Backend → list LogEntry → Prop :=
| failure_server cause b1 :
    pyro_backend TServer ("servers/" +:+ serverId) (with_session auth) b = (inl cause, b1) →
    Failure auth serverId b cause b1 []
| failure_version data b1 cause b2 :
    pyro_backend TServer ("servers/" +:+ serverId) (with_session auth) b = (inr data, b1) →
    ValueOps.toBoolean (prop data "modpack") = true →
    catalog_backend TProject ("version/" +:+ ValueOps.toString (prop data "modpack")) b1
      = (inl cause, b2) →
    Failure auth serverId b cause b2
      [console_error_entry "Error fetching modpack version:" cause]
| failure_project data b1 pid bv cause b2 :
    pyro_backend TServer ("servers/" +:+ serverId) (with_session auth) b = (inr data, b1) →
    ValueOps.toBoolean (prop data "modpack") = true →
    catalog_backend TProject ("version/" +:+ ValueOps.toString (prop data "modpack")) b1
      = (inr pid, bv) →
    catalog_backend TProjectOrNull ("project/" +:+ Project.project_id pid) bv
      = (inl cause, b2) →
    Failure auth serverId b cause b2 [console_error_entry "Error fetching project:" cause]
| failure_backups data b1 data' b2 cause b3 :
    pyro_backend TServer ("servers/" +:+ serverId) (with_session auth) b = (inr data, b1) →
    Resolution data b1 data' b2 →
    pyro_backend TBackups ("servers/" +:+ serverId +:+ "/backups") (with_session auth) b2
      = (inl cause, b3) →
    Failure auth serverId b cause b3
      [console_error_entry "Error fetching server backups:" cause].

(** What the [catch] of [fetchServerData] stores and throws for a
    caught value. *)
Definition as_Error (caught : Thrown) : Error :=
  match instanceof_Error caught with
  | Some e => e
  | None => new_Error "An unknown error occurred"
  end.

(** The server a call writes the cache entry of, if it writes one. *)
Definition target (c : Call) : option string :=
  match c with
  | call_fetchServerData _ serverId
  | call_updateServerData serverId _
  | call_updateServerName serverId _ => Some serverId
  | _ => None
  end.

(** An action that leaves the store (cache and error slot) as it found
    it, however it completes. *)
Definition keeps_store {A} (m : Action A) : Prop :=
  ∀ w, store (m w).2 = store w.

(** An action that writes nothing to the console. *)
Definition quiet {A} (m : Action A) : Prop :=
  ∀ w, console (m w).2 = console w.

(** An action that logs nothing when it returns, and when it throws has
    logged, once, the very value it throws. *)
Definition logs_what_it_throws {A} (m : Action A) : Prop :=
  ∀ w,
    match m w with
    | (Return _, w') => console w' = console w
    | (Throw t, w') => ∃ msg, console w' = console w ++ [console_error_entry msg t]
    end.

(** The calls whose [catch] ends in [throw error]: all but the two that
    end in [throw this.error]. *)
Definition rethrows_caught (c : Call) : bool :=
  match c with
  | call_fetchServerData _ _ | call_listServers _ => false
  | _ => true
  end.

End Store.

(** [console.error] lines, as against [console.warn] lines. *)
Definition is_error_entry (e : LogEntry) : bool :=
  match e with
  | console_error_entry _ _ => true
  | console_warn_entry _ => false
  end.

(** Sortedness for a sort by a key: [x] may stand before [y] when [y] is
    not strictly before [x]. *)
Definition in_order {A K : Type} (key : A → K) (gt : K → K → bool) (x y : A) : Prop :=
  gt (key y) (key x) = false.

(** Most recent first. *)
Definition newest_first : list ServerBackup.t → Prop :=
  StronglySorted
    (λ a b, String.le (ServerBackup.created_at b) (ServerBackup.created_at a)).

(** ** A scripted backend

    A backend for examples: it answers its first [budget] requests, each
    with the stock answer of the requested type, and fails every request
    after that with [failure]. *)
Module Demo.

Record t : Type := mk { budget : nat; failure : Thrown }.

Definition january : ServerBackup.t :=
  ServerBackup.mk "b1" "before update" "2024-01-01".
Definition march : ServerBackup.t :=
  ServerBackup.mk "b2" "after update" "2024-03-01".
Definition march_again : ServerBackup.t :=
  ServerBackup.mk "b3" "second try" "2024-03-01".

Definition version : Project.t := Project.mk "ver1" "proj1".
Definition project : Project.t := Project.mk "proj1" "proj1".

Definition server : Server :=
  <["name" := VJson (JString "survival")]>
    (<["modpack" := VJson (JString "mp1")]>
       (<["backups" := VJson (JArray [])]> ∅)).

Definition stock (T : Payload) : payload T :=
  match T with
  | TServer => server
  | TServerList => mkServerList [server]
  | TBackups => [january; march; march_again]
  | TProject => version
  | TProjectOrNull => Some project
  | TAny => JNull
  end.

Definition respond (T : Payload) (b : t) : (Thrown + payload T) * t :=
  match budget b with
  | O => (inl (failure b), b)
  | S n => (inr (stock T), mk n (failure b))
  end.

#[global] Instance fetcher : Fetcher t := {|
  pyro_backend T _ _ b := respond T b;
  catalog_backend T _ b := respond T b
|}.

Definition offline : Error := new_Error "offline".
Definition stale : Error := new_Error "stale".

(** A fresh store in front of a backend. *)
Definition fresh (b : t) : World t := mkWorld state b [].

(** A backend that answers [n] requests and is offline after that. *)
Definition answers (n : nat) : t := mk n (ThrownError offline).

(** A backend that throws a string at every request. *)
Definition rude : t := mk 0 (ThrownValue (VJson (JString "boom"))).

(** A store that has a record for "srv1" and an earlier error. *)
Definition cached : Server :=
  <["name" := VJson (JString "old name")]> (<["motd" := VJson (JString "hello")]> ∅).
Definition used (b : t) : World t :=
  mkWorld {| serverData := {| own := <["srv1" := cached]> ∅; proto := None |};
             error := Some stale |} b [].

End Demo.

(** ** A backend that holds one backup list

    It answers every request for backups with the list it holds, and
    throws at any other request. *)
Module Shelf.

Record t : Type := mk { held : list ServerBackup.t }.

Definition refusal : Thrown := ThrownError (new_Error "not on the shelf").

Definition respond (T : Payload) (b : t) : (Thrown + payload T) * t :=
  match T with
  | TBackups => (inr (held b), b)
  | _ => (inl refusal, b)
  end.

#[global] Instance fetcher : Fetcher t := {|
  pyro_backend T _ _ b := respond T b;
  catalog_backend T _ b := respond T b
|}.

End Shelf.

(** ** A backend whose records have a field named ["__proto__"]

    It answers every request; its record of a server is what
    [JSON.parse] makes of [{"__proto__": "crafted", "name": "survival"}],
    with no modpack and no backups. *)
Module Crafted.

Inductive t : Type := mk.

Definition server : Server :=
  <["__proto__" := VJson (JString "crafted")]>
    (<["name" := VJson (JString "survival")]> ∅).

Definition stock (T : Payload) : payload T :=
  match T with
  | TServer => server
  | TServerList => mkServerList [server]
  | TBackups => []
  | TProject => Demo.version
  | TProjectOrNull => None
  | TAny => JNull
  end.

#[global] Instance fetcher : Fetcher t := {|
  pyro_backend T _ _ b := (inr (stock T), b);
  catalog_backend T _ b := (inr (stock T), b)
|}.

(** A fresh store in front of it. *)
Definition fresh : World t := mkWorld state mk [].

(** The record that a fetch builds from [server]. *)
Definition fetched : Server := <["backups" := VBackups []]> server.

End Crafted.

(** * Properties *)

(** ** The sort *)

Module ArrayFacts.
Section Stable.
Context {A K : Type} `{!EqDecision K}.
Variable key : A → K.
Variable gt : K → K → bool.
Variable compareFn : A → A → Z.
Hypothesis compare_key : ∀ x y, (compareFn x y <? 0)%Z = gt (key x) (key y).
Hypothesis gt_irrefl : ∀ k, gt k k = false.
Hypothesis gt_trans : ∀ a b c, gt a b = true → gt b c = true → gt a c = true.

Local Abbreviation ordered := (in_order key gt).
Local Abbreviation keyed k := (λ y, key y = k).

Lemma insert_perm x l : Array.insert compareFn x l ≡ₚ x :: l.
Proof.
  induction l as [|y l IH]; simpl; [done|].
  destruct (compareFn x y <? 0)%Z; [done|].
  rewrite IH. apply Permutation_swap.
Qed.

Lemma foldl_insert_perm l acc :
  foldl (λ acc x, Array.insert compareFn x acc) acc l ≡ₚ acc ++ l.
Proof.
  revert acc. induction l as [|x l IH]; intros acc; simpl.
  - by rewrite app_nil_r.
  - rewrite IH, insert_perm. simpl. apply Permutation_middle.
Qed.

Lemma sort_perm l : Array.sort compareFn l ≡ₚ l.
Proof. unfold Array.sort. by rewrite foldl_insert_perm. Qed.

Lemma gt_asym a b : gt a b = true → gt b a = false.
Proof.
  intros Hab. destruct (gt b a) eqn:Hba; [|done].
  by rewrite <- (gt_irrefl a), (gt_trans a b a).
Qed.

Lemma insert_sorted x l :
  StronglySorted ordered l → StronglySorted ordered (Array.insert compareFn x l).
Proof.
  induction 1 as [|y l Hl IH Hy]; simpl.
  - repeat constructor.
  - rewrite compare_key. destruct (gt (key x) (key y)) eqn:Hxy.
    + constructor; [by constructor|].
      constructor; [by apply gt_asym|].
      eapply Forall_impl; [exact Hy|]. intros z Hz. unfold in_order in *.
      destruct (gt (key z) (key x)) eqn:Hzx; [|done].
      by rewrite <- Hz, (gt_trans _ _ _ Hzx Hxy).
    + constructor; [done|].
      rewrite insert_perm. by constructor.
Qed.

Lemma foldl_insert_sorted l acc :
  StronglySorted ordered acc →
  StronglySorted ordered (foldl (λ acc x, Array.insert compareFn x acc) acc l).
Proof.
  revert acc. induction l as [|x l IH]; intros acc Hacc; simpl; [done|].
  by apply IH, insert_sorted.
Qed.

Lemma sort_sorted l : StronglySorted ordered (Array.sort compareFn l).
Proof. apply foldl_insert_sorted. constructor. Qed.

Lemma filter_key_none k (l : list A) :
  Forall (λ y, key y ≠ k) l → filter (keyed k) l = [].
Proof.
  induction 1 as [|y l Hy _ IH]; [done|].
  by rewrite filter_cons_False.
Qed.

(** Among the elements of one key, the inserted element comes last. *)
Lemma insert_filter k x l :
  StronglySorted ordered l →
  filter (keyed k) (Array.insert compareFn x l)
  = filter (keyed k) l ++ filter (keyed k) [x].
Proof.
  induction 1 as [|y l Hl IH Hy]; simpl; [done|].
  rewrite compare_key. destruct (gt (key x) (key y)) eqn:Hxy.
  - destruct (decide (key x = k)) as [Hk|Hk].
    + rewrite (filter_cons_True _ x (y :: l)) by done.
      rewrite (filter_cons_True _ x []) by done.
      rewrite filter_nil, (filter_key_none k (y :: l)); [done|].
      constructor.
      * intros Hyk. by rewrite Hk, <- Hyk, gt_irrefl in Hxy.
      * eapply Forall_impl; [exact Hy|]. intros z Hz Hzk.
        unfold in_order in Hz. by rewrite Hzk, <- Hk, Hxy in Hz.
    + rewrite (filter_cons_False _ x) by done.
      rewrite (filter_cons_False _ x []) by done.
      by rewrite filter_nil, app_nil_r.
  - rewrite !(filter_cons _ y), IH.
    by destruct (decide (key y = k)).
Qed.

Lemma foldl_insert_filter k l acc :
  StronglySorted ordered acc →
  filter (keyed k) (foldl (λ acc x, Array.insert compareFn x acc) acc l)
  = filter (keyed k) acc ++ filter (keyed k) l.
Proof.
  revert acc. induction l as [|x l IH]; intros acc Hacc; simpl.
  - by rewrite filter_nil, app_nil_r.
  - rewrite IH by by apply insert_sorted.
    rewrite insert_filter by done.
    by rewrite <- app_assoc, <- filter_app.
Qed.

Lemma sort_stable k l :
  filter (keyed k) (Array.sort compareFn l) = filter (keyed k) l.
Proof. unfold Array.sort. rewrite foldl_insert_filter; [done|constructor]. Qed.
(** A list that is in order already is left as it is. *)
Lemma insert_last x l :
  Forall (λ y, ordered y x) l → Array.insert compareFn x l = l ++ [x].
Proof.
  induction 1 as [|y l Hy _ IH]; simpl; [done|].
  rewrite compare_key. unfold in_order in Hy. by rewrite Hy, IH.
Qed.

Lemma foldl_insert_in_order l acc :
  StronglySorted ordered (acc ++ l) →
  foldl (λ acc x, Array.insert compareFn x acc) acc l = acc ++ l.
Proof.
  revert acc. induction l as [|x l IH]; intros acc Hs; simpl.
  - by rewrite app_nil_r.
  - rewrite insert_last.
    + rewrite IH; rewrite <- app_assoc; done.
    + apply Forall_forall. intros y Hy.
      eapply StronglySorted_app_1_elem_of; [exact Hs|done|by left].
Qed.

Lemma sort_in_order l : StronglySorted ordered l → Array.sort compareFn l = l.
Proof. intros Hs. unfold Array.sort. by rewrite foldl_insert_in_order. Qed.
End Stable.
End ArrayFacts.

(** The comparison of timestamps is a strict order. *)
Lemma js_gt_irrefl a : js_gt a a = false.
Proof.
  unfold js_gt. pose proof (reflexivity (R := String.le) a) as Ha.
  unfold String.le in Ha. by destruct (String.leb a a).
Qed.

Lemma js_gt_le a b : js_gt a b = true ↔ ¬ String.le a b.
Proof. unfold js_gt, String.le. destruct (String.leb a b); naive_solver. Qed.

Lemma js_gt_trans a b c : js_gt a b = true → js_gt b c = true → js_gt a c = true.
Proof.
  rewrite !js_gt_le. intros Hab Hbc Hac.
  destruct (total String.le b a) as [Hba|]; [|done].
  destruct (total String.le c b) as [Hcb|]; [|done].
  apply Hab. assert (a = c) as -> by (apply (anti_symm String.le); [done|by etrans]).
  done.
Qed.

Lemma by_created_at_negative a b :
  (by_created_at a b <? 0)%Z
  = js_gt (ServerBackup.created_at a) (ServerBackup.created_at b).
Proof. unfold by_created_at. by destruct (js_gt _ _). Qed.

(** ** The monad and the frame of an action *)

Section StoreFacts.

Context `{Fetcher Backend}.
Implicit Types w : World Backend.

Local Abbreviation Act := (@Action Backend).

Lemma bind_run {A B} (m : Act A) (f : A → Act B) w a w1 :
  m w = (Return a, w1) → (m ≫= f) w = f a w1.
Proof. intros Hm. unfold mbind, Action_bind. by rewrite Hm. Qed.

Lemma bind_throw {A B} (m : Act A) (f : A → Act B) w t w1 :
  m w = (Throw t, w1) → (m ≫= f) w = (Throw t, w1).
Proof. intros Hm. unfold mbind, Action_bind. by rewrite Hm. Qed.

Lemma logged_return {A} msg (body : Act A) w a w1 :
  body w = (Return a, w1) → logged msg body w = (Return a, w1).
Proof. intros Hb. unfold logged, try_catch. by rewrite Hb. Qed.

Lemma logged_throw {A} msg (body : Act A) w t w1 :
  body w = (Throw t, w1) →
  logged msg body w
  = (Throw t, mkWorld (store w1) (backend w1) (console w1 ++ [console_error_entry msg t])).
Proof. intros Hb. unfold logged, try_catch. by rewrite Hb. Qed.

Lemma keeps_store_run {A} (m : Act A) w r w' :
  keeps_store m → m w = (r, w') → store w' = store w.
Proof. intros Hm Hw. specialize (Hm w). by rewrite Hw in Hm. Qed.

Lemma keeps_ret {A} (a : A) : keeps_store (mret a : Act A).
Proof. done. Qed.

Lemma keeps_throw {A} t : keeps_store (throw t : Act A).
Proof. done. Qed.

Lemma keeps_this : keeps_store (this : Act _).
Proof. done. Qed.

Lemma keeps_console_error msg t : keeps_store (console_error msg t : Act _).
Proof. done. Qed.

Lemma keeps_console_warn msg : keeps_store (console_warn msg : Act _).
Proof. done. Qed.

Lemma keeps_usePyroFetch T path options : keeps_store (usePyroFetch T path options).
Proof. done. Qed.

Lemma keeps_useFetch T path : keeps_store (useFetch T path).
Proof. done. Qed.

Lemma keeps_bind {A B} (m : Act A) (f : A → Act B) :
  keeps_store m → (∀ a, keeps_store (f a)) → keeps_store (m ≫= f).
Proof.
  intros Hm Hf w. unfold mbind, Action_bind.
  destruct (m w) as [[a|t] w1] eqn:Hw.
  - rewrite Hf. eapply keeps_store_run; eauto.
  - eapply keeps_store_run; eauto.
Qed.

Lemma keeps_try_catch {A} (body : Act A) handler :
  keeps_store body → (∀ t, keeps_store (handler t)) → keeps_store (try_catch body handler).
Proof.
  intros Hb Hh w. unfold try_catch.
  destruct (body w) as [[a|t] w1] eqn:Hw.
  - eapply keeps_store_run; eauto.
  - rewrite Hh. eapply keeps_store_run; eauto.
Qed.

Create HintDb frame discriminated.
Hint Resolve keeps_ret keeps_throw keeps_this keeps_console_error
  keeps_console_warn keeps_usePyroFetch keeps_useFetch : frame.

Ltac frame :=
  repeat first
    [ apply keeps_bind; [|intros ?]
    | apply keeps_try_catch; [|intros ?]
    | solve [auto with frame] ].

Lemma keeps_logged {A} msg (body : Act A) :
  keeps_store body → keeps_store (logged msg body).
Proof. intros Hb. unfold logged. frame. Qed.

Lemma keeps_void {A} (m : Act A) : keeps_store m → keeps_store (void m).
Proof. intros Hm. unfold void. frame. Qed.

Hint Resolve keeps_logged keeps_void : frame.

Ltac one_request := intros; apply keeps_logged; unfold toRaw; frame.

Lemma keeps_fetchModpackVersion modpackId : keeps_store (fetchModpackVersion modpackId).
Proof. one_request. Qed.

Lemma keeps_fetchProject projectId : keeps_store (fetchProject projectId).
Proof. one_request. Qed.

Lemma keeps_fetchServerBackups auth serverId :
  keeps_store (fetchServerBackups auth serverId).
Proof. one_request. Qed.

Lemma keeps_listServers auth : keeps_store (listServers auth).
Proof. unfold listServers. frame. Qed.

Lemma keeps_requestWebsocket serverId : keeps_store (requestWebsocket serverId).
Proof. one_request. Qed.

Lemma keeps_sendPowerAction serverId action :
  keeps_store (sendPowerAction serverId action).
Proof. one_request. Qed.

Lemma keeps_createBackup serverId backupName :
  keeps_store (createBackup serverId backupName).
Proof. one_request. Qed.

Lemma keeps_renameBackup serverId backupId newName :
  keeps_store (renameBackup serverId backupId newName).
Proof. one_request. Qed.

Lemma keeps_deleteBackup serverId backupId :
  keeps_store (deleteBackup serverId backupId).
Proof. one_request. Qed.

Lemma keeps_restoreBackup serverId backupId :
  keeps_store (restoreBackup serverId backupId).
Proof. one_request. Qed.

Lemma keeps_downloadBackup serverId backupId :
  keeps_store (downloadBackup serverId backupId).
Proof. one_request. Qed.

Lemma keeps_initiateWorldDownload serverId :
  keeps_store (initiateWorldDownload serverId).
Proof. one_request. Qed.

Lemma keeps_getWorldDownloadURL serverId : keeps_store (getWorldDownloadURL serverId).
Proof. one_request. Qed.

Lemma keeps_fetchConfigFile serverId fileName :
  keeps_store (fetchConfigFile serverId fileName).
Proof. one_request. Qed.

Lemma keeps_saveConfigFile serverId fileName data :
  keeps_store (saveConfigFile serverId fileName data).
Proof. one_request. Qed.

Lemma keeps_checkSubdomainAvailability subdomain :
  keeps_store (checkSubdomainAvailability subdomain).
Proof. one_request. Qed.

Lemma keeps_changeSubdomain serverId subdomain :
  keeps_store (changeSubdomain serverId subdomain).
Proof. one_request. Qed.

Lemma keeps_installMod serverId projectId versionId :
  keeps_store (installMod serverId projectId versionId).
Proof. one_request. Qed.

Lemma keeps_removeMod serverId modId : keeps_store (removeMod serverId modId).
Proof. one_request. Qed.

Lemma keeps_reinstallMod serverId modId versionId :
  keeps_store (reinstallMod serverId modId versionId).
Proof. one_request. Qed.

Lemma keeps_reinstallServer serverId projectId versionId :
  keeps_store (reinstallServer serverId projectId versionId).
Proof. one_request. Qed.

(** ** The backup list *)

Lemma StronglySorted_weaken {A} (R S : A → A → Prop) l :
  (∀ x y, R x y → S x y) → StronglySorted R l → StronglySorted S l.
Proof.
  intros HRS. induction 1 as [|x l _ IH Hx]; constructor; [done|].
  eapply Forall_impl; eauto.
Qed.

Lemma sort_newest_first l : newest_first (Array.sort by_created_at l).
Proof.
  eapply StronglySorted_weaken;
    [|apply (ArrayFacts.sort_sorted ServerBackup.created_at js_gt);
      eauto using by_created_at_negative, js_gt_irrefl, js_gt_trans].
  intros a b Hab. unfold in_order in Hab.
  destruct (decide (String.le (ServerBackup.created_at b) (ServerBackup.created_at a)))
    as [|Hle]; [done|].
  apply js_gt_le in Hle. congruence.
Qed.

(** C3. When the backend returns a list of backups, [fetchServerBackups]
    returns a rearrangement of that list in which every backup is at
    least as recent as those behind it (creation timestamp descending),
    and in which the backups of any one creation timestamp stand in the
    order they had in the list received. *)
Theorem fetchServerBackups_newest_first auth serverId w result w1 :
  usePyroFetch TBackups ("servers/" +:+ serverId +:+ "/backups") (with_session auth) w
    = (Return result, w1) →
  ∃ sorted,
    fetchServerBackups auth serverId w = (Return sorted, w1) ∧
    sorted ≡ₚ result ∧
    newest_first sorted ∧
    ∀ t, filter (λ b, ServerBackup.created_at b = t) sorted
         = filter (λ b, ServerBackup.created_at b = t) result.
Proof.
  intros Hfetch. exists (Array.sort by_created_at result).
  split; [|split; [|split]].
  - unfold fetchServerBackups. apply logged_return.
    by rewrite (bind_run _ _ _ _ _ Hfetch).
  - apply ArrayFacts.sort_perm.
  - apply sort_newest_first.
  - intros t. apply (ArrayFacts.sort_stable ServerBackup.created_at js_gt);
      eauto using by_created_at_negative, js_gt_irrefl, js_gt_trans.
Qed.

(** ** Calls that only talk to the backend *)

(** C8. [createBackup], [renameBackup], [deleteBackup], [restoreBackup],
    [downloadBackup] and [sendPowerAction] leave the cache as it was,
    whatever the backend answers and however the call completes. *)
Theorem backup_and_power_calls_keep_cache w :
  (∀ serverId backupName,
     serverData (store (createBackup serverId backupName w).2) = serverData (store w)) ∧
  (∀ serverId backupId newName,
     serverData (store (renameBackup serverId backupId newName w).2)
     = serverData (store w)) ∧
  (∀ serverId backupId,
     serverData (store (deleteBackup serverId backupId w).2) = serverData (store w)) ∧
  (∀ serverId backupId,
     serverData (store (restoreBackup serverId backupId w).2) = serverData (store w)) ∧
  (∀ serverId backupId,
     serverData (store (downloadBackup serverId backupId w).2) = serverData (store w)) ∧
  (∀ serverId action,
     serverData (store (sendPowerAction serverId action w).2) = serverData (store w)).
Proof.
  repeat split; intros.
  - by rewrite keeps_createBackup.
  - by rewrite keeps_renameBackup.
  - by rewrite keeps_deleteBackup.
  - by rewrite keeps_restoreBackup.
  - by rewrite keeps_downloadBackup.
  - by rewrite keeps_sendPowerAction.
Qed.

(** ** listServers *)

(** C4. A call of [listServers] leaves the cache as it was, however it
    completes; when the fetch fails, the call throws the value the
    error slot holds at that moment (an earlier error, or [null]),
    whatever the fetch threw, and it throws nothing else. *)
Theorem listServers_rethrows_slot auth w r w' :
  listServers auth w = (r, w') →
  serverData (store w') = serverData (store w) ∧
  (∀ caught w1,
     usePyroFetch TServerList "servers" (with_session auth) w = (Throw caught, w1) →
     r = Throw (slot_value (error (store w)))) ∧
  (∀ thrown, r = Throw thrown → thrown = slot_value (error (store w))).
Proof.
  intros Hrun. split.
  - by rewrite <- (keeps_store_run _ _ _ _ (keeps_listServers auth) Hrun).
  - revert Hrun. unfold listServers, try_catch.
    destruct (usePyroFetch TServerList "servers" (with_session auth) w)
      as [[servers|caught] w1] eqn:Hfetch.
    + intros [= <- <-]. split; [intros ?? [=]|intros ? [=]].
    + pose proof (keeps_store_run _ _ _ _ (keeps_usePyroFetch _ _ _) Hfetch) as Hst.
      unfold mbind, Action_bind, console_error, this, throw. simpl.
      rewrite Hst. intros [= <- <-]. split; [done|by intros ? [= <-]].
Qed.

(** ** The cache object *)

Lemma assign_insert c key record :
  key ≠ "__proto__" →
  assign c key record = {| own := <[key := record]> (own c); proto := proto c |}.
Proof.
  intros Hkey. unfold assign. by repeat case_match.
Qed.

Lemma assign_own c key record current :
  own c !! key = Some current →
  assign c key record = {| own := <[key := record]> (own c); proto := proto c |}.
Proof. intros Hcur. unfold assign. by rewrite Hcur. Qed.

(** A write leaves the object with the own properties it had, the one
    written apart, and at most one more. *)
Lemma own_assign c key record s :
  own (assign c key record) !! s = own c !! s ∨
  (s = key ∧ own (assign c key record) !! s = Some record).
Proof.
  unfold assign.
  repeat case_match; simpl; try (by left);
    (destruct (decide (s = key)) as [->|Hne];
     [right; by rewrite lookup_insert_eq|left; by rewrite lookup_insert_ne]).
Qed.

Lemma own_assign_present c key record s :
  is_Some (own c !! s) → is_Some (own (assign c key record) !! s).
Proof.
  intros Hs. destruct (own_assign c key record s) as [->|[_ ->]]; eauto.
Qed.

Lemma lookup_member_own c key record :
  own c !! key = Some record → lookup_member c key = MServer record.
Proof. intros Hown. unfold lookup_member. by rewrite Hown. Qed.

Lemma lookup_assign_ne c key record s :
  key ≠ "__proto__" → s ≠ key →
  lookup_member (assign c key record) s = lookup_member c s.
Proof.
  intros Hkey Hs. rewrite assign_insert by done.
  unfold lookup_member. simpl. by rewrite lookup_insert_ne.
Qed.

Lemma lookup_assign_read c key record :
  (key = "__proto__" → record !! "__proto__" = None) →
  lookup_member (assign c key record) key = MServer record.
Proof.
  intros Hkey. destruct (decide (key = "__proto__")) as [->|Hne].
  - specialize (Hkey eq_refl). unfold assign, lookup_member.
    destruct (own c !! "__proto__") eqn:Hown; simpl.
    + by rewrite lookup_insert_eq.
    + destruct (proto c ≫= (λ d, d !! "__proto__")); simpl.
      * by rewrite lookup_insert_eq.
      * by rewrite Hown, Hkey.
  - rewrite assign_insert by done.
    apply lookup_member_own. simpl. by rewrite lookup_insert_eq.
Qed.

(** A second write under a name leaves what it alone would have left,
    unless the first made a record that has a ["__proto__"] field the
    prototype. *)
Lemma assign_assign c key first second :
  (key = "__proto__" → own c !! key = None → proto c ≫= (λ d, d !! key) = None →
   first !! "__proto__" = None) →
  assign (assign c key first) key second = assign c key second.
Proof.
  intros Hkey. destruct (decide (key = "__proto__")) as [->|Hne].
  - specialize (Hkey eq_refl). unfold assign.
    destruct (own c !! "__proto__") eqn:Hown; simpl.
    + by rewrite lookup_insert_eq, insert_insert_eq.
    + destruct (proto c ≫= (λ d, d !! "__proto__")) eqn:Hfield; simpl.
      * by rewrite lookup_insert_eq, insert_insert_eq.
      * by rewrite Hown, Hkey.
  - rewrite !assign_insert by done. simpl. by rewrite insert_insert_eq.
Qed.

(** In an object whose prototype is still [Object.prototype], a name
    that is not a member of it is found when it is an own property, and
    not otherwise. *)
Lemma lookup_member_plain c key :
  proto c = None → key ∉ Object_prototype →
  lookup_member c key = match own c !! key with
                        | Some record => MServer record
                        | None => MUndefined
                        end.
Proof.
  intros Hproto Hkey. unfold lookup_member. rewrite Hproto.
  destruct (own c !! key); [done|]. unfold inherited.
  destruct (decide (key = "__proto__")) as [->|_].
  - exfalso. apply Hkey. unfold Object_prototype. set_solver.
  - by rewrite bool_decide_eq_false_2.
Qed.

Lemma store_eta (st : ServerState) :
  {| serverData := serverData st; error := error st |} = st.
Proof. by destruct st. Qed.

Lemma dict_eta (c : Dict) : {| own := own c; proto := proto c |} = c.
Proof. by destruct c. Qed.

Lemma world_eta w : mkWorld (store w) (backend w) (console w) = w.
Proof. by destruct w. Qed.

(** ** updateServerData and updateServerName *)

Lemma updateServerData_run serverId (data : Server) w :
  updateServerData serverId data w
  = if MemberOps.toBoolean (getServerData (store w) serverId) then
      (Return (),
       mkWorld
         {| serverData :=
              assign (serverData (store w)) serverId
                (spread (MemberOps.properties (getServerData (store w) serverId)) data);
            error := error (store w) |}
         (backend w) (console w))
    else
      (Return (),
       mkWorld (store w) (backend w)
         (console w ++
            [console_warn_entry
               ("Attempting to update non-existent server data for server ID: "
                +:+ serverId)])).
Proof.
  unfold updateServerData, getServerData, mbind, Action_bind, this.
  by destruct (MemberOps.toBoolean _).
Qed.

(** [updateServerName], run: the request, then the cache. *)
Lemma updateServerName_run serverId newName w :
  updateServerName serverId newName w
  = match usePyroFetch TAny ("servers/" +:+ serverId +:+ "/name")
            (with_body POST (JObject [("name", JString newName)])) w with
    | (Return _, w1) =>
        if MemberOps.toBoolean (getServerData (store w) serverId) then
          (Return (),
           mkWorld
             {| serverData :=
                  assign (serverData (store w)) serverId
                    (spread (MemberOps.properties (getServerData (store w) serverId))
                       {["name" := VJson (JString newName)]});
                error := error (store w) |}
             (backend w1) (console w1))
        else
          (Return (),
           mkWorld (store w) (backend w1)
             (console w1 ++
                [console_warn_entry
                   ("Attempting to update name for non-existent server data. Server ID: "
                    +:+ serverId)]))
    | (Throw cause, w1) =>
        (Throw cause,
         mkWorld (store w) (backend w1)
           (console w1 ++ [console_error_entry "Error updating server name:" cause]))
    end.
Proof.
  destruct (usePyroFetch TAny ("servers/" +:+ serverId +:+ "/name")
              (with_body POST (JObject [("name", JString newName)])) w)
    as [[answered|cause] w1] eqn:Hfetch;
    pose proof (keeps_store_run _ _ _ _ (keeps_usePyroFetch _ _ _) Hfetch) as Hst;
    unfold updateServerName.
  - unfold getServerData.
    destruct (MemberOps.toBoolean (lookup_member (serverData (store w)) serverId)) eqn:Hb;
      apply logged_return; rewrite (bind_run _ _ _ _ _ Hfetch);
      unfold mbind, Action_bind, this, set_serverData, console_warn; simpl;
      rewrite Hst, Hb; simpl; by rewrite ?Hst.
  - rewrite <- Hst. apply logged_throw. by apply bind_throw.
Qed.

(** C10. When the rename request fails, [updateServerName] throws what
    the request threw and leaves the store, and with it the cache, as it
    was, whether or not the server is cached. *)
Theorem updateServerName_failure serverId newName w cause w1 :
  usePyroFetch TAny ("servers/" +:+ serverId +:+ "/name")
    (with_body POST (JObject [("name", JString newName)])) w
    = (Throw cause, w1) →
  ∃ w',
    updateServerName serverId newName w = (Throw cause, w') ∧
    serverData (store w') = serverData (store w) ∧
    store w' = store w.
Proof.
  intros Hfetch. rewrite updateServerName_run, Hfetch. eauto.
Qed.

(** ** fetchServerData *)

Lemma try_catch_return {A} (body : Act A) handler w a w1 :
  body w = (Return a, w1) → try_catch body handler w = (Return a, w1).
Proof. intros Hb. unfold try_catch. by rewrite Hb. Qed.

Lemma try_catch_throw {A} (body : Act A) handler w t w1 r :
  body w = (Throw t, w1) → handler t w1 = r → try_catch body handler w = r.
Proof. intros Hb Hh. unfold try_catch. by rewrite Hb. Qed.

Lemma usePyroFetch_ok T path options w a b :
  pyro_backend T path options (backend w) = (inr a, b) →
  usePyroFetch T path options w = (Return a, mkWorld (store w) b (console w)).
Proof. intros Hb. unfold usePyroFetch, answer. by rewrite Hb. Qed.

Lemma usePyroFetch_err T path options w t b :
  pyro_backend T path options (backend w) = (inl t, b) →
  usePyroFetch T path options w = (Throw t, mkWorld (store w) b (console w)).
Proof. intros Hb. unfold usePyroFetch, answer. by rewrite Hb. Qed.

Lemma useFetch_ok T path w a b :
  catalog_backend T path (backend w) = (inr a, b) →
  useFetch T path w = (Return a, mkWorld (store w) b (console w)).
Proof. intros Hb. unfold useFetch, answer. by rewrite Hb. Qed.

Lemma useFetch_err T path w t b :
  catalog_backend T path (backend w) = (inl t, b) →
  useFetch T path w = (Throw t, mkWorld (store w) b (console w)).
Proof. intros Hb. unfold useFetch, answer. by rewrite Hb. Qed.

Lemma fetchModpackVersion_ok modpackId w pid b :
  catalog_backend TProject ("version/" +:+ modpackId) (backend w) = (inr pid, b) →
  fetchModpackVersion modpackId w = (Return pid, mkWorld (store w) b (console w)).
Proof.
  intros Hb. unfold fetchModpackVersion, toRaw. apply logged_return.
  by rewrite (bind_run _ _ _ _ _ (useFetch_ok _ _ _ _ _ Hb)).
Qed.

Lemma fetchModpackVersion_err modpackId w cause b :
  catalog_backend TProject ("version/" +:+ modpackId) (backend w) = (inl cause, b) →
  fetchModpackVersion modpackId w
  = (Throw cause,
     mkWorld (store w) b
       (console w ++ [console_error_entry "Error fetching modpack version:" cause])).
Proof.
  intros Hb. unfold fetchModpackVersion, toRaw.
  by rewrite (logged_throw _ _ _ _ _ (bind_throw _ _ _ _ _ (useFetch_err _ _ _ _ _ Hb))).
Qed.

Lemma fetchProject_ok projectId w project b :
  catalog_backend TProjectOrNull ("project/" +:+ projectId) (backend w) = (inr project, b) →
  fetchProject projectId w = (Return project, mkWorld (store w) b (console w)).
Proof.
  intros Hb. unfold fetchProject, toRaw. apply logged_return.
  by apply (useFetch_ok TProjectOrNull).
Qed.

Lemma fetchProject_err projectId w cause b :
  catalog_backend TProjectOrNull ("project/" +:+ projectId) (backend w) = (inl cause, b) →
  fetchProject projectId w
  = (Throw cause,
     mkWorld (store w) b (console w ++ [console_error_entry "Error fetching project:" cause])).
Proof.
  intros Hb. unfold fetchProject, toRaw.
  by rewrite (logged_throw _ _ _ _ _ (useFetch_err TProjectOrNull _ _ _ _ Hb)).
Qed.

Lemma fetchServerBackups_ok auth serverId w result b :
  pyro_backend TBackups ("servers/" +:+ serverId +:+ "/backups") (with_session auth)
    (backend w) = (inr result, b) →
  fetchServerBackups auth serverId w
  = (Return (Array.sort by_created_at result), mkWorld (store w) b (console w)).
Proof.
  intros Hb. unfold fetchServerBackups. apply logged_return.
  by rewrite (bind_run _ _ _ _ _ (usePyroFetch_ok _ _ _ _ _ _ Hb)).
Qed.

Lemma fetchServerBackups_err auth serverId w cause b :
  pyro_backend TBackups ("servers/" +:+ serverId +:+ "/backups") (with_session auth)
    (backend w) = (inl cause, b) →
  fetchServerBackups auth serverId w
  = (Throw cause,
     mkWorld (store w) b
       (console w ++ [console_error_entry "Error fetching server backups:" cause])).
Proof.
  intros Hb. unfold fetchServerBackups.
  by rewrite (logged_throw _ _ _ _ _ (bind_throw _ _ _ _ _ (usePyroFetch_err _ _ _ _ _ _ Hb))).
Qed.

(** The [if (data.modpack) { ... }] step, run. *)
Lemma Resolution_run {B} data w1 data' b2 (k : Server → Act B) :
  Resolution data (backend w1) data' b2 →
  ((if ValueOps.toBoolean (prop data "modpack") then
      pid ← fetchModpackVersion (ValueOps.toString (prop data "modpack"));
      project ← fetchProject (Project.project_id pid);
      mret (<["project" := project_value project]>
              (<["modpack_id" := VJson (JString (Project.id pid))]> data))
    else mret data) ≫= k) w1
  = k data' (mkWorld (store w1) b2 (console w1)).
Proof.
  intros [Hm|pid bv project b2' Hm Hv Hp]; rewrite Hm.
  - by rewrite world_eta.
  - apply bind_run. rewrite (bind_run _ _ _ _ _ (fetchModpackVersion_ok _ _ _ _ Hv)).
    by rewrite (bind_run _ _ _ _ _ (fetchProject_ok _ (mkWorld _ _ _) _ _ Hp)).
Qed.

Lemma Success_run auth serverId w record b3 :
  Success auth serverId (backend w) record b3 →
  fetchServerData auth serverId w
  = (Return (),
     mkWorld {| serverData := assign (serverData (store w)) serverId record; error := None |}
       b3 (console w)).
Proof.
  intros [data b1 data' b2 result b3' Hs Hr Hb].
  unfold fetchServerData. apply try_catch_return.
  rewrite (bind_run _ _ _ _ _ (usePyroFetch_ok _ _ _ _ _ _ Hs)).
  rewrite (Resolution_run _ (mkWorld _ _ _) _ _ _ Hr).
  by rewrite (bind_run _ _ _ _ _ (fetchServerBackups_ok _ _ (mkWorld _ _ _) _ _ Hb)).
Qed.

Lemma Failure_run auth serverId w cause bk logs :
  Failure auth serverId (backend w) cause bk logs →
  fetchServerData auth serverId w
  = (Throw (ThrownError (as_Error cause)),
     mkWorld {| serverData := serverData (store w); error := Some (as_Error cause) |} bk
       ((console w ++ logs) ++
          [console_error_entry "(PYROFETCH) Error fetching server data:" cause])).
Proof.
  intros Hf. unfold fetchServerData.
  eapply try_catch_throw with
    (t := cause) (w1 := mkWorld (store w) bk (console w ++ logs)); [|done].
  destruct Hf as [cause b1 Hs|data b1 cause b2 Hs Hm Hv|data b1 pid bv cause b2 Hs Hm Hv Hp
                 |data b1 data' b2 cause b3 Hs Hr Hb].
  - rewrite app_nil_r. by apply bind_throw, (usePyroFetch_err _ _ _ _ _ _ Hs).
  - rewrite (bind_run _ _ _ _ _ (usePyroFetch_ok _ _ _ _ _ _ Hs)), Hm.
    by apply bind_throw, bind_throw, (fetchModpackVersion_err _ (mkWorld _ _ _) _ _ Hv).
  - rewrite (bind_run _ _ _ _ _ (usePyroFetch_ok _ _ _ _ _ _ Hs)), Hm.
    apply bind_throw.
    rewrite (bind_run _ _ _ _ _ (fetchModpackVersion_ok _ (mkWorld _ _ _) _ _ Hv)).
    by apply bind_throw, (fetchProject_err _ (mkWorld _ _ _) _ _ Hp).
  - rewrite (bind_run _ _ _ _ _ (usePyroFetch_ok _ _ _ _ _ _ Hs)).
    rewrite (Resolution_run _ (mkWorld _ _ _) _ _ _ Hr).
    by apply bind_throw, (fetchServerBackups_err _ _ (mkWorld _ _ _) _ _ Hb).
Qed.

(** Every call takes one of the two courses. *)
Lemma fetch_course auth serverId (b : Backend) :
  (∃ record b3, Success auth serverId b record b3) ∨
  (∃ cause bk logs, Failure auth serverId b cause bk logs).
Proof.
  destruct (pyro_backend TServer ("servers/" +:+ serverId) (with_session auth) b)
    as [[cause|data] b1] eqn:Hs;
    [right; eexists _, _, _; by apply failure_server|].
  destruct (ValueOps.toBoolean (prop data "modpack")) eqn:Hm.
  - destruct (catalog_backend TProject
                ("version/" +:+ ValueOps.toString (prop data "modpack")) b1)
      as [[cause|pid] bv] eqn:Hv;
      [right; eexists _, _, _; by eapply failure_version|].
    destruct (catalog_backend TProjectOrNull ("project/" +:+ Project.project_id pid) bv)
      as [[cause|project] b2] eqn:Hp;
      [right; eexists _, _, _; by eapply failure_project|].
    destruct (pyro_backend TBackups ("servers/" +:+ serverId +:+ "/backups")
                (with_session auth) b2) as [[cause|result] b3] eqn:Hb.
    + right. eexists _, _, _.
      eapply failure_backups; [exact Hs|eapply resolution_modpack; eassumption|exact Hb].
    + left. eexists _, _.
      eapply success; [exact Hs|eapply resolution_modpack; eassumption|exact Hb].
  - destruct (pyro_backend TBackups ("servers/" +:+ serverId +:+ "/backups")
                (with_session auth) b1) as [[cause|result] b3] eqn:Hb.
    + right. eexists _, _, _.
      eapply failure_backups; [exact Hs|by apply resolution_none|exact Hb].
    + left. eexists _, _.
      eapply success; [exact Hs|by apply resolution_none|exact Hb].
Qed.

(** A failure is logged by the action it happens in, if it happens in
    one. *)
Lemma Failure_logs auth serverId b cause bk logs :
  Failure auth serverId b cause bk logs →
  logs = [] ∨ ∃ msg, logs = [console_error_entry msg cause].
Proof. intros []; eauto. Qed.

Lemma fetchServerData_cases auth serverId w :
  (∃ record b3,
     Success auth serverId (backend w) record b3 ∧
     fetchServerData auth serverId w
     = (Return (),
        mkWorld
          {| serverData := assign (serverData (store w)) serverId record; error := None |}
          b3 (console w))) ∨
  (∃ cause bk logs,
     Failure auth serverId (backend w) cause bk logs ∧
     fetchServerData auth serverId w
     = (Throw (ThrownError (as_Error cause)),
        mkWorld {| serverData := serverData (store w); error := Some (as_Error cause) |} bk
          ((console w ++ logs) ++
             [console_error_entry "(PYROFETCH) Error fetching server data:" cause]))).
Proof.
  destruct (fetch_course auth serverId (backend w))
    as [(record & b3 & Hs)|(cause & bk & logs & Hf)].
  - left. eauto using Success_run.
  - right. eauto 6 using Failure_run.
Qed.

(** X14. A call of [fetchServerData] that completes normally has asked
    the backend for the record of the server; when the record names a
    modpack (a string that is not empty; not when the field is missing,
    [null] or empty) it has asked the catalog for the version of that
    modpack and then for the project of that version, and has attached
    the version's [id] as [modpack_id] and the project as [project]; it
    has asked the backend for the backups and attached them, most recent
    first; it has assigned the record so built, and nothing of what the
    cache held, under [serverId], and it leaves the error slot empty.
    For any [serverId] but ["__proto__"] the record is then the entry of
    that server and the other entries are as they were; [getServerData]
    gives the record for [serverId], unless [serverId] is ["__proto__"]
    and the record of the backend has a field of that name. *)
Theorem fetchServerData_success auth serverId w w' :
  fetchServerData auth serverId w = (Return (), w') →
  ∃ data b1 modpack data' b2 result b3 backups,
    pyro_backend TServer ("servers/" +:+ serverId)
      {| session := Some auth; method := None; body := None |} (backend w)
      = (inr data, b1) ∧
    modpack = (if ValueOps.toBoolean (prop data "modpack")
               then Some (ValueOps.toString (prop data "modpack")) else None) ∧
    (∀ s, prop data "modpack" = VJson (JString s) →
          modpack = if decide (s = "") then None else Some s) ∧
    (data !! "modpack" = None ∨ data !! "modpack" = Some (VJson JNull) → modpack = None) ∧
    match modpack with
    | Some modpackId =>
        ∃ pid bv project,
          catalog_backend TProject ("version/" +:+ modpackId) b1 = (inr pid, bv) ∧
          catalog_backend TProjectOrNull ("project/" +:+ Project.project_id pid) bv
            = (inr project, b2) ∧
          data' = <["project" := match project with
                                 | Some p => VProject p
                                 | None => VJson JNull
                                 end]>
                    (<["modpack_id" := VJson (JString (Project.id pid))]> data)
    | None => data' = data ∧ b2 = b1
    end ∧
    pyro_backend TBackups ("servers/" +:+ serverId +:+ "/backups")
      {| session := Some auth; method := None; body := None |} b2
      = (inr result, b3) ∧
    backups ≡ₚ result ∧
    newest_first backups ∧
    (∀ t, filter (λ b, ServerBackup.created_at b = t) backups
          = filter (λ b, ServerBackup.created_at b = t) result) ∧
    w' = mkWorld
           {| serverData :=
                assign (serverData (store w)) serverId
                  (<["backups" := VBackups backups]> data');
              error := None |}
           b3 (console w) ∧
    (serverId ≠ "__proto__" →
     serverData (store w')
     = {| own := <[serverId := <["backups" := VBackups backups]> data']>
                   (own (serverData (store w)));
          proto := proto (serverData (store w)) |} ∧
     ∀ other, other ≠ serverId →
       getServerData (store w') other = getServerData (store w) other) ∧
    ((serverId = "__proto__" → data !! "__proto__" = None) →
     getServerData (store w') serverId
     = MServer (<["backups" := VBackups backups]> data')) ∧
    error (store w') = None ∧
    hasError (store w') = false.
Proof.
  intros Hrun.
  destruct (fetchServerData_cases auth serverId w)
    as [(record & b3 & Hs & Hw)|(cause & bk & logs & _ & Hw)];
    rewrite Hw in Hrun; [|done].
  injection Hrun as <-. clear Hw.
  destruct Hs as [data b1 data' b2 result b3 Hs Hr Hb]. simpl in data, result.
  exists data, b1,
    (if ValueOps.toBoolean (prop data "modpack")
     then Some (ValueOps.toString (prop data "modpack")) else None),
    data', b2, result, b3, (Array.sort by_created_at result).
  split; [exact Hs|]. split; [done|]. split; [|split; [|split; [|split; [exact Hb|]]]].
  - intros s ->. simpl. destruct (decide (s = "")) as [->|Hne]; [done|].
    by apply String.eqb_neq in Hne as ->.
  - unfold prop. intros [Hd|Hd]; simpl in *; by rewrite Hd.
  - destruct Hr as [Hm|pid bv project b2 Hm Hv Hp]; rewrite Hm; [done|].
    by exists pid, bv, project.
  - split; [apply ArrayFacts.sort_perm|]. split; [apply sort_newest_first|].
    split.
    { intros t. apply (ArrayFacts.sort_stable ServerBackup.created_at js_gt);
        eauto using by_created_at_negative, js_gt_irrefl, js_gt_trans. }
    split; [done|]. split; [|split; [|done]].
    + intros Hproto. simpl. split; [by apply assign_insert|].
      intros other Hne. by apply lookup_assign_ne.
    + intros Hfield. unfold getServerData. simpl. apply lookup_assign_read.
      intros Hproto. specialize (Hfield Hproto).
      rewrite lookup_insert_ne by done.
      destruct Hr; [done|]. by rewrite !lookup_insert_ne.
Qed.

(** C2, as the store has it. When the request for the server, for the
    version of its modpack, for the project of that version or for the
    backups fails with [cause], the call of [fetchServerData] throws;
    the cache is as it was before the call, every entry of it; the error
    slot holds an error, so [hasError] is true; and what is thrown is
    what the slot holds: [cause] itself when it is an [Error], and a new
    [Error] with the message "An unknown error occurred" when it is
    anything else. *)
Theorem fetchServerData_failure auth serverId w cause bk logs :
  Failure auth serverId (backend w) cause bk logs →
  ∃ thrown w',
    fetchServerData auth serverId w = (Throw thrown, w') ∧
    serverData (store w') = serverData (store w) ∧
    (∀ s, getServerData (store w') s = getServerData (store w) s) ∧
    error (store w')
    = Some (match cause with
            | ThrownError e => e
            | ThrownValue _ => new_Error "An unknown error occurred"
            end) ∧
    hasError (store w') = true ∧
    thrown = slot_value (error (store w')) ∧
    thrown = ThrownError (match cause with
                          | ThrownError e => e
                          | ThrownValue _ => new_Error "An unknown error occurred"
                          end) ∧
    (∀ e, cause = ThrownError e → thrown = cause) ∧
    backend w' = bk ∧
    console w'
    = console w ++ logs ++
        [console_error_entry "(PYROFETCH) Error fetching server data:" cause].
Proof.
  intros Hf. eexists _, _. split; [by apply Failure_run|]. simpl.
  repeat split; try (by destruct cause); by rewrite app_assoc.
Qed.

(** Every throwing call is one of those: a request has failed. *)
Lemma fetchServerData_throw_inv auth serverId w thrown w' :
  fetchServerData auth serverId w = (Throw thrown, w') →
  ∃ cause bk logs,
    Failure auth serverId (backend w) cause bk logs ∧
    thrown = ThrownError (as_Error cause) ∧
    store w' = {| serverData := serverData (store w); error := Some (as_Error cause) |}.
Proof.
  intros Hrun.
  destruct (fetchServerData_cases auth serverId w)
    as [(record & b3 & _ & Hw)|(cause & bk & logs & Hf & Hw)];
    rewrite Hw in Hrun; [done|].
  injection Hrun as <- <-. eauto 6.
Qed.

(** ** The error slot and the cache, call by call *)

Hint Resolve keeps_fetchModpackVersion keeps_fetchProject keeps_fetchServerBackups
  keeps_listServers keeps_requestWebsocket keeps_sendPowerAction keeps_createBackup
  keeps_renameBackup keeps_deleteBackup keeps_restoreBackup keeps_downloadBackup
  keeps_initiateWorldDownload keeps_getWorldDownloadURL keeps_fetchConfigFile
  keeps_saveConfigFile keeps_checkSubdomainAvailability keeps_changeSubdomain
  keeps_installMod keeps_removeMod keeps_reinstallMod keeps_reinstallServer : frame.

(** All calls but four leave the store alone. *)
Lemma run_frame c :
  match c with
  | call_fetchServerData _ _ | call_updateServerData _ _
  | call_updateServerName _ _ | call_clearError => True
  | _ => keeps_store (run c)
  end.
Proof. destruct c; simpl; auto with frame. Qed.

(** What a call of [updateServerName] does to the store: nothing, or the
    write of the renamed properties of what it found. *)
Lemma updateServerName_store serverId newName w :
  store (updateServerName serverId newName w).2 = store w ∨
  (MemberOps.toBoolean (getServerData (store w) serverId) = true ∧
   (updateServerName serverId newName w).1 = Return () ∧
   store (updateServerName serverId newName w).2
   = {| serverData :=
          assign (serverData (store w)) serverId
            (spread (MemberOps.properties (getServerData (store w) serverId))
               {["name" := VJson (JString newName)]});
        error := error (store w) |}).
Proof.
  rewrite updateServerName_run.
  destruct (usePyroFetch _ _ _ w) as [[answered|cause] w1]; [|by left].
  destruct (MemberOps.toBoolean _) eqn:Hb; [by right|by left].
Qed.

(** C5, as the store has it. A call of [fetchServerData] leaves the
    error slot empty when it completes normally and holding the error
    it throws when it fails: the failure of its request, itself when it
    is an [Error] and as a new [Error] otherwise; [clearError] leaves the
    slot empty; every other call leaves the slot as it found it, however
    the call completes.  So a slot that held an error is empty after a
    call only when the call was [clearError] or a [fetchServerData] that
    completed normally. *)
Theorem error_slot_call_by_call c w :
  error (store (run c w).2)
  = match c with
    | call_fetchServerData _ _ =>
        match (run c w).1 with
        | Return _ => None
        | Throw thrown => instanceof_Error thrown
        end
    | call_clearError => None
    | _ => error (store w)
    end ∧
  (error (store w) ≠ None → error (store (run c w).2) = None →
   c = call_clearError ∨
   ∃ auth serverId, c = call_fetchServerData auth serverId ∧ (run c w).1 = Return ()) ∧
  (∀ auth serverId thrown,
     c = call_fetchServerData auth serverId → (run c w).1 = Throw thrown →
     ∃ cause bk logs,
       Failure auth serverId (backend w) cause bk logs ∧
       error (store (run c w).2)
       = Some (match cause with
               | ThrownError e => e
               | ThrownValue _ => new_Error "An unknown error occurred"
               end) ∧
       thrown = slot_value (error (store (run c w).2))).
Proof.
  pose proof (run_frame c) as Hframe.
  destruct c; simpl in *;
    try (split; [by rewrite Hframe|split; [intros ?; by rewrite Hframe|done]]).
  - destruct (fetchServerData_cases auth serverId w)
      as [(record & b3 & _ & ->)|(cause & bk & logs & Hf & ->)]; simpl.
    + split; [done|]. split; [|done]. intros _ _. right. eauto.
    + split; [done|]. split; [done|]. intros ? ? thrown [= <- <-] [= <-].
      exists cause, bk, logs. by destruct cause.
  - rewrite updateServerData_run.
    destruct (MemberOps.toBoolean _); simpl; repeat split; done.
  - destruct (updateServerName_store serverId newName w) as [->|(_ & _ & ->)];
      simpl; repeat split; done.
  - split; [done|]. split; [|done]. intros _ _. by left.
Qed.

(** An empty error slot stays empty through a call, unless the call is
    a [fetchServerData] that throws. *)
Lemma run_slot_empty c w :
  error (store w) = None →
  (∀ auth s t, c = call_fetchServerData auth s → (run c w).1 ≠ Throw t) →
  error (store (run c w).2) = None.
Proof.
  intros Hs Hnot. pose proof (run_frame c) as Hframe.
  destruct c; simpl in *; try (by rewrite Hframe).
  - destruct (fetchServerData_cases auth serverId w)
      as [(record & b3 & _ & Hrun)|(cause & bk & logs & _ & Hrun)];
      rewrite Hrun; simpl; [done|].
    specialize (Hnot auth serverId (ThrownError (as_Error cause)) eq_refl).
    by rewrite Hrun in Hnot.
  - rewrite updateServerData_run. by destruct (MemberOps.toBoolean _).
  - by destruct (updateServerName_store serverId newName w) as [->|(_ & _ & ->)].
  - done.
Qed.

(** X5. The failure of a call other than [fetchServerData] never shows
    in [hasError]: through a sequence of calls in which no
    [fetchServerData] throws, a store without an error is without one at
    the end, whatever else has failed. *)
Theorem hasError_only_from_fetchServerData calls w :
  hasError (store w) = false →
  (∀ auth s t, (call_fetchServerData auth s, Throw t) ∉ (run_all calls w).1) →
  hasError (store (run_all calls w).2) = false.
Proof.
  assert (∀ st, hasError st = false ↔ error st = None) as Hhas.
  { intros st. unfold hasError. destruct (error st); naive_solver. }
  rewrite !Hhas. revert w.
  induction calls as [|c calls IH]; intros w Hs Hnot; simpl in *; [done|].
  apply IH.
  - apply run_slot_empty; [done|]. intros auth s t -> Hthrow.
    apply (Hnot auth s t). rewrite <- Hthrow. by left.
  - intros auth s t Hin. apply (Hnot auth s t). by right.
Qed.
(** ** The console *)

Lemma quiet_run {A} (m : Act A) w r w' :
  quiet m → m w = (r, w') → console w' = console w.
Proof. intros Hm Hw. specialize (Hm w). by rewrite Hw in Hm. Qed.

Lemma quiet_ret {A} (a : A) : quiet (mret a : Act A).
Proof. done. Qed.

Lemma quiet_usePyroFetch T path options : quiet (usePyroFetch T path options).
Proof. done. Qed.

Lemma quiet_useFetch T path : quiet (useFetch T path).
Proof. done. Qed.

Lemma quiet_bind {A B} (m : Act A) (f : A → Act B) :
  quiet m → (∀ a, quiet (f a)) → quiet (m ≫= f).
Proof.
  intros Hm Hf w. unfold mbind, Action_bind.
  destruct (m w) as [[a|t] w1] eqn:Hw.
  - rewrite Hf. eapply quiet_run; eauto.
  - eapply quiet_run; eauto.
Qed.

Create HintDb quiet discriminated.
Hint Resolve quiet_ret quiet_usePyroFetch quiet_useFetch : quiet.

Ltac quiet :=
  unfold toRaw;
  repeat first
    [ solve [auto with quiet]
    | apply quiet_useFetch
    | apply quiet_usePyroFetch
    | apply quiet_bind; [|intros ?] ].

Lemma logs_logged {A} msg (body : Act A) :
  quiet body → logs_what_it_throws (logged msg body).
Proof.
  intros Hb w. unfold logged, try_catch.
  destruct (body w) as [[a|t] w1] eqn:Hw; simpl;
    rewrite (quiet_run _ _ _ _ Hb Hw); eauto.
Qed.

Lemma logs_void {A} (m : Act A) : logs_what_it_throws m → logs_what_it_throws (void m).
Proof.
  intros Hm w. specialize (Hm w). unfold void, mbind, Action_bind.
  by destruct (m w) as [[a|t] w1].
Qed.

Ltac logs :=
  intros;
  lazymatch goal with
  | |- logs_what_it_throws (void _) => apply logs_void
  | _ => idtac
  end;
  apply logs_logged; quiet.

Lemma logs_fetchModpackVersion modpackId :
  logs_what_it_throws (fetchModpackVersion modpackId).
Proof. logs. Qed.

Lemma logs_fetchProject projectId : logs_what_it_throws (fetchProject projectId).
Proof. logs. Qed.

Lemma logs_fetchServerBackups auth serverId :
  logs_what_it_throws (fetchServerBackups auth serverId).
Proof. logs. Qed.

(** All calls but five log what they throw, and nothing else. *)
Lemma run_logs c :
  match c with
  | call_fetchServerData _ _ | call_listServers _ | call_updateServerData _ _
  | call_updateServerName _ _ | call_clearError => True
  | _ => logs_what_it_throws (run c)
  end.
Proof. destruct c; simpl; try done; logs. Qed.

(** X1. Every call only adds to the console, and it writes a
    [console.error] line exactly when it throws: a call that returns has
    written nothing, or one warning; a call that throws has written an
    error line last, after at most one other error line.  For every call
    whose [catch] ends in [throw error] the line is the only one and it
    carries the very value thrown. *)
Theorem call_logs_error_iff_it_throws c w :
  ∃ new,
    console (run c w).2 = console w ++ new ∧
    (length new ≤ 2)%nat ∧
    match (run c w).1 with
    | Return _ => Forall (λ e, is_error_entry e = false) new ∧ (length new ≤ 1)%nat
    | Throw t =>
        ∃ earlier msg what,
          new = earlier ++ [console_error_entry msg what] ∧
          Forall (λ e, is_error_entry e = true) earlier ∧
          (rethrows_caught c = true → earlier = [] ∧ what = t)
    end.
Proof.
  pose proof (run_logs c) as Hlogs.
  destruct c; simpl in Hlogs |- *;
    try (match type of Hlogs with
         | logs_what_it_throws ?m =>
             specialize (Hlogs w); destruct (m w) as [[a|t] w1]; simpl;
             [exists []; rewrite Hlogs, app_nil_r; repeat split; simpl; auto with lia
             |destruct Hlogs as [msg ->]; eexists; split; [done|]; split; [simpl; lia|];
              by exists [], msg, t]
         end).
  - destruct (fetchServerData_cases auth serverId w)
      as [(record & b3 & _ & ->)|(cause & bk & logs & Hf & ->)]; simpl.
    + exists []. rewrite app_nil_r. repeat split; simpl; auto with lia.
    + destruct (Failure_logs _ _ _ _ _ _ Hf) as [->|[msg ->]].
      * rewrite app_nil_r. eexists. split; [done|]. split; [simpl; lia|].
        eexists [], _, _. by repeat split.
      * rewrite <- app_assoc. eexists. split; [done|]. split; [simpl; lia|].
        eexists [_], _, _. split; [done|]. split; [|done].
        by repeat constructor.
  - unfold void, listServers, try_catch, mbind, Action_bind.
    destruct (usePyroFetch TServerList "servers" (with_session auth) w)
      as [[a|t] w1] eqn:Hfetch; simpl;
      rewrite (quiet_run _ _ _ _ (quiet_usePyroFetch _ _ _) Hfetch).
    + exists []. rewrite app_nil_r. repeat split; simpl; auto with lia.
    + eexists. split; [done|]. split; [simpl; lia|]. eexists [], _, _. by repeat split.
  - rewrite updateServerData_run.
    destruct (MemberOps.toBoolean _); simpl.
    + exists []. rewrite app_nil_r. repeat split; simpl; auto with lia.
    + eexists. split; [done|]. repeat split; simpl; auto with lia.
  - rewrite updateServerName_run.
    destruct (usePyroFetch _ _ _ w) as [[a|t] w1] eqn:Hfetch;
      pose proof (quiet_run _ _ _ _ (quiet_usePyroFetch _ _ _) Hfetch) as Hc.
    + destruct (MemberOps.toBoolean _); simpl; rewrite Hc.
      * exists []. rewrite app_nil_r. repeat split; simpl; auto with lia.
      * eexists. split; [done|]. repeat split; simpl; auto with lia.
    + simpl. rewrite Hc. eexists. split; [done|]. split; [simpl; lia|].
      by exists [], "Error updating server name:", t.
  - exists []. rewrite app_nil_r. repeat split; simpl; auto with lia.
Qed.

(** ** The cache over calls and sequences of calls *)

(** X2. A call changes what [getServerData] gives for a server only
    when it writes the cache under that server's identifier or under
    ["__proto__"], and the only calls that write are a [fetchServerData]
    that returns, an [updateServerData] that finds something truthy under
    its identifier, and an [updateServerName] that finds something truthy
    there and returns. *)
Theorem cache_entry_changed_only_by c w s :
  getServerData (store (run c w).2) s ≠ getServerData (store w) s →
  ∃ serverId,
    target c = Some serverId ∧
    (serverId = s ∨ serverId = "__proto__") ∧
    ((∃ auth, c = call_fetchServerData auth serverId ∧ (run c w).1 = Return ()) ∨
     (∃ data, c = call_updateServerData serverId data ∧
        MemberOps.toBoolean (getServerData (store w) serverId) = true) ∨
     (∃ newName, c = call_updateServerName serverId newName ∧
        MemberOps.toBoolean (getServerData (store w) serverId) = true ∧
        (run c w).1 = Return ())).
Proof.
  intros Hne. pose proof (run_frame c) as Hframe.
  assert (∀ serverId record,
            getServerData
              {| serverData := assign (serverData (store w)) serverId record;
                 error := error (store w) |} s
            ≠ getServerData (store w) s →
            serverId = s ∨ serverId = "__proto__") as Hwrite.
  { intros serverId record Hw.
    destruct (decide (serverId = s)) as [|Hs]; [by left|].
    destruct (decide (serverId = "__proto__")) as [|Hp]; [by right|].
    exfalso. apply Hw. unfold getServerData. simpl. by apply lookup_assign_ne. }
  destruct c; simpl in *; try (by rewrite Hframe in Hne).
  - destruct (fetchServerData_cases auth serverId w)
      as [(record & b3 & _ & Hrun)|(cause & bk & logs & _ & Hrun)];
      rewrite Hrun in *; simpl in *; [|done].
    exists serverId. split; [done|]. split; [|left; eauto].
    apply (Hwrite serverId record). intros Heq. apply Hne. by rewrite <- Heq.
  - rewrite updateServerData_run in Hne.
    destruct (MemberOps.toBoolean (getServerData (store w) serverId)) eqn:Hb;
      simpl in Hne; [|done].
    exists serverId. split; [done|]. split; [by eapply Hwrite|]. right. left. eauto.
  - destruct (updateServerName_store serverId newName w) as [Hst|(Hb & Hret & Hst)];
      rewrite Hst in Hne; [done|].
    exists serverId. split; [done|]. split; [by eapply Hwrite|]. right. right. eauto.
  - done.
Qed.

(** A call removes no own property of the cache. *)
Lemma run_own_present c w s :
  is_Some (own (serverData (store w)) !! s) →
  is_Some (own (serverData (store (run c w).2)) !! s).
Proof.
  intros Hs. pose proof (run_frame c) as Hframe.
  destruct c; simpl in *; try (by rewrite Hframe).
  - destruct (fetchServerData_cases auth serverId w)
      as [(record & b3 & _ & ->)|(cause & bk & logs & _ & ->)]; simpl; [|done].
    by apply own_assign_present.
  - rewrite updateServerData_run.
    destruct (MemberOps.toBoolean _); simpl; [|done]. by apply own_assign_present.
  - destruct (updateServerName_store serverId newName w) as [->|(_ & _ & ->)];
      simpl; [done|].
    by apply own_assign_present.
  - done.
Qed.

(** X3. No call ever removes an entry: a server that has an entry of its
    own in the cache keeps one through any sequence of calls, however
    they complete, and [getServerData] goes on giving a record for it. *)
Theorem cached_server_stays_cached calls w s :
  is_Some (own (serverData (store w)) !! s) →
  is_Some (own (serverData (store (run_all calls w).2)) !! s) ∧
  ∃ record, getServerData (store (run_all calls w).2) s = MServer record.
Proof.
  intros Hs.
  assert (is_Some (own (serverData (store (run_all calls w).2)) !! s)) as Hend.
  { revert w Hs. induction calls as [|c calls IH]; intros w Hs; simpl; [done|].
    by apply IH, run_own_present. }
  split; [done|]. destruct Hend as [record Hrecord].
  exists record. by apply lookup_member_own.
Qed.

(** While no call writes under ["__proto__"], the prototype of the cache
    stays [Object.prototype]. *)
Lemma run_proto c w :
  proto (serverData (store w)) = None → target c ≠ Some "__proto__" →
  proto (serverData (store (run c w).2)) = None.
Proof.
  intros Hp Ht. pose proof (run_frame c) as Hframe.
  assert (∀ serverId record,
            Some serverId ≠ Some "__proto__" →
            proto (assign (serverData (store w)) serverId record) = None) as Hwrite.
  { intros serverId record Hne. rewrite assign_insert by congruence. done. }
  destruct c; simpl in *; try (by rewrite Hframe).
  - destruct (fetchServerData_cases auth serverId w)
      as [(record & b3 & _ & ->)|(cause & bk & logs & _ & ->)]; simpl; auto.
  - rewrite updateServerData_run. destruct (MemberOps.toBoolean _); simpl; auto.
  - destruct (updateServerName_store serverId newName w) as [->|(_ & _ & ->)];
      simpl; auto.
  - done.
Qed.

(** In a cache with that prototype, an entry for a name that
    [Object.prototype] does not have is made by a [fetchServerData] of
    that name that returns, and by nothing else. *)
Lemma run_own_plain c w s :
  proto (serverData (store w)) = None → s ∉ Object_prototype →
  target c ≠ Some "__proto__" →
  (is_Some (own (serverData (store (run c w).2)) !! s) ↔
   is_Some (own (serverData (store w)) !! s) ∨
   ∃ auth, c = call_fetchServerData auth s ∧ (run c w).1 = Return ()).
Proof.
  intros Hp Hs Ht. pose proof (run_frame c) as Hframe.
  assert (∀ serverId record,
            Some serverId ≠ Some "__proto__" → serverId ≠ s →
            own (assign (serverData (store w)) serverId record) !! s
            = own (serverData (store w)) !! s) as Hother.
  { intros serverId record Hne Hns. rewrite assign_insert by congruence.
    simpl. by rewrite lookup_insert_ne. }
  assert (∀ serverId record,
            Some serverId ≠ Some "__proto__" →
            MemberOps.toBoolean (getServerData (store w) serverId) = true →
            (is_Some (own (assign (serverData (store w)) serverId record) !! s) ↔
             is_Some (own (serverData (store w)) !! s))) as Hupdate.
  { intros serverId record Hne Hb.
    destruct (decide (serverId = s)) as [->|Hns]; [|by rewrite Hother].
    unfold getServerData in Hb. rewrite lookup_member_plain in Hb by done.
    destruct (own (serverData (store w)) !! s) eqn:Hown; [|done].
    rewrite assign_insert by congruence. simpl. rewrite lookup_insert_eq.
    split; eauto. }
  destruct c; simpl in *;
    try (rewrite Hframe; split; [by left|by intros [?|[? [? _]]]]).
  - destruct (fetchServerData_cases auth serverId w)
      as [(record & b3 & _ & ->)|(cause & bk & logs & _ & ->)]; simpl.
    + destruct (decide (serverId = s)) as [->|Hns].
      * rewrite assign_insert by congruence. simpl. rewrite lookup_insert_eq.
        split; [right|]; eauto.
      * rewrite Hother by done. split; [by left|]. by intros [?|(? & [= _ ?] & _)].
    + split; [by left|]. by intros [?|(? & _ & ?)].
  - rewrite updateServerData_run.
    destruct (MemberOps.toBoolean _) eqn:Hb; simpl.
    + rewrite Hupdate by done. split; [by left|by intros [?|[? [? _]]]].
    + split; [by left|by intros [?|[? [? _]]]].
  - destruct (updateServerName_store serverId newName w) as [->|(Hb & _ & ->)]; simpl.
    + split; [by left|by intros [?|[? [? _]]]].
    + rewrite Hupdate by done. split; [by left|by intros [?|[? [? _]]]].
  - split; [by left|by intros [?|[? [? _]]]].
Qed.

(** X4. After any sequence of calls run from the initial state, none of
    them writing under ["__proto__"], [getServerData] gives something
    for a name that [Object.prototype] does not have exactly when some
    [fetchServerData] of that name in the sequence returned. *)
Theorem cached_iff_fetched (b : Backend) calls s :
  s ∉ Object_prototype →
  (∀ c, c ∈ calls → target c ≠ Some "__proto__") →
  (getServerData (store (run_all calls (mkWorld state b [])).2) s ≠ MUndefined ↔
   ∃ auth, (call_fetchServerData auth s, Return ()) ∈ (run_all calls (mkWorld state b [])).1).
Proof.
  intros Hs Hcalls.
  assert (∀ w,
            proto (serverData (store w)) = None →
            proto (serverData (store (run_all calls w).2)) = None ∧
            (is_Some (own (serverData (store (run_all calls w).2)) !! s) ↔
             is_Some (own (serverData (store w)) !! s) ∨
             ∃ auth, (call_fetchServerData auth s, Return ()) ∈ (run_all calls w).1))
    as Hinv.
  { induction calls as [|c calls IH]; intros w Hp; simpl.
    - split; [done|]. split; [by left|]. intros [?|[? Hin]]; [done|].
      by apply elem_of_nil in Hin.
    - assert (target c ≠ Some "__proto__") as Hc by (apply Hcalls; by left).
      destruct (IH (λ c' Hin, Hcalls c' (list_elem_of_further _ _ _ Hin))
                  (run c w).2 (run_proto _ _ Hp Hc)) as [Hp' Hown].
      split; [done|]. rewrite Hown, (run_own_plain c w s) by done.
      split.
      + intros [[?|(auth & -> & Hret)]|[auth Hin]]; [by left| |].
        * right. exists auth. rewrite <- Hret. by left.
        * right. exists auth. by right.
      + intros [?|[auth Hin]]; [by left; left|].
        apply elem_of_cons in Hin as [[= <- Hret]|Hin]; [left; right; eauto|].
        right. eauto. }
  destruct (Hinv (mkWorld state b []) eq_refl) as [Hp Hown].
  unfold getServerData. rewrite lookup_member_plain by done.
  destruct (own (serverData (store (run_all calls (mkWorld state b [])).2)) !! s)
    as [record|] eqn:Hrec.
  - split; [|done]. intros _. destruct (proj1 Hown (ex_intro _ record eq_refl))
      as [Hinit|?]; [|done].
    simpl in Hinit. rewrite lookup_empty in Hinit. by destruct Hinit.
  - split; [done|]. intros Hin.
    destruct (proj2 Hown (or_intror Hin)) as [? [=]].
Qed.

(** ** Updates, composed *)

Lemma spread_lookup (current data : Server) field :
  spread current data !! field
  = match data !! field with
    | Some v => Some v
    | None => current !! field
    end.
Proof.
  unfold spread. destruct (data !! field) as [v|] eqn:Hd.
  - by apply lookup_union_Some_l.
  - by apply lookup_union_r.
Qed.

(** A new value for an own property changes no other read. *)
Lemma lookup_member_insert_ne o p key record s :
  s ≠ key →
  lookup_member {| own := <[key := record]> o; proto := p |} s
  = lookup_member {| own := o; proto := p |} s.
Proof. intros Hs. unfold lookup_member. simpl. by rewrite lookup_insert_ne. Qed.

(** A name that [Object.prototype] does not have, in a cache that has
    that prototype still and no entry under the name: the guard of the
    updates finds nothing. *)
Lemma guard_plain (c : Dict) key :
  proto c = None → key ∉ Object_prototype → own c !! key = None →
  MemberOps.toBoolean (lookup_member c key) = false.
Proof. intros Hp Hkey Hown. by rewrite lookup_member_plain, Hown. Qed.

Lemma updateServerData_own serverId (data : Server) w current :
  own (serverData (store w)) !! serverId = Some current →
  updateServerData serverId data w
  = (Return (),
     mkWorld
       {| serverData :=
            {| own := <[serverId := spread current data]> (own (serverData (store w)));
               proto := proto (serverData (store w)) |};
          error := error (store w) |}
       (backend w) (console w)).
Proof.
  intros Hcur. rewrite updateServerData_run. unfold getServerData.
  rewrite (lookup_member_own _ _ _ Hcur). simpl.
  by rewrite (assign_own _ _ _ _ Hcur).
Qed.

(** X15. [updateServerData] on a server that has an entry in the cache
    puts in its place the entry merged with the partial record: a field
    of the partial record has the partial record's value, any other
    field is as it was in the entry, and what the cache gives under every
    other name is as it was.  When the cache gives nothing truthy under
    [serverId], the call changes nothing in the store and completes
    normally after one warning; that is so for every name that no entry
    has and [Object.prototype] does not have, while the prototype of the
    cache is [Object.prototype]. *)
Theorem updateServerData_shallow_merge serverId (data : Server) w :
  (∀ current,
     own (serverData (store w)) !! serverId = Some current →
     ∃ merged,
       updateServerData serverId data w
       = (Return (),
          mkWorld
            {| serverData :=
                 {| own := <[serverId := merged]> (own (serverData (store w)));
                    proto := proto (serverData (store w)) |};
               error := error (store w) |}
            (backend w) (console w)) ∧
       getServerData (store (updateServerData serverId data w).2) serverId
       = MServer merged ∧
       (∀ field v, data !! field = Some v → merged !! field = Some v) ∧
       (∀ field, data !! field = None → merged !! field = current !! field) ∧
       (∀ other, other ≠ serverId →
          getServerData (store (updateServerData serverId data w).2) other
          = getServerData (store w) other)) ∧
  (MemberOps.toBoolean (getServerData (store w) serverId) = false →
   updateServerData serverId data w
   = (Return (),
      mkWorld (store w) (backend w)
        (console w ++
           [console_warn_entry
              ("Attempting to update non-existent server data for server ID: "
               +:+ serverId)]))) ∧
  (proto (serverData (store w)) = None → serverId ∉ Object_prototype →
   own (serverData (store w)) !! serverId = None →
   MemberOps.toBoolean (getServerData (store w) serverId) = false).
Proof.
  split; [|split].
  - intros current Hcur. exists (spread current data).
    rewrite (updateServerData_own _ _ _ _ Hcur). split; [done|]. simpl.
    split; [|split; [|split]].
    + apply lookup_member_own. simpl. by rewrite lookup_insert_eq.
    + intros field v Hf. by rewrite spread_lookup, Hf.
    + intros field Hf. by rewrite spread_lookup, Hf.
    + intros other Hne. unfold getServerData. simpl.
      rewrite lookup_member_insert_ne by done. by rewrite dict_eta.
  - intros Hb. by rewrite updateServerData_run, Hb.
  - apply guard_plain.
Qed.

(** X16. When the rename request succeeds, [updateServerName] on a
    server that has an entry in the cache puts in its place the entry
    with [name] set to the new name and every other field as it was,
    what the cache gives under every other name being as it was; when
    the cache gives nothing truthy under [serverId], it leaves the store
    as it was and completes normally after one warning. *)
Theorem updateServerName_success serverId newName w answered w1 :
  usePyroFetch TAny ("servers/" +:+ serverId +:+ "/name")
    (with_body POST (JObject [("name", JString newName)])) w
    = (Return answered, w1) →
  (∀ current,
     own (serverData (store w)) !! serverId = Some current →
     ∃ renamed,
       updateServerName serverId newName w
       = (Return (),
          mkWorld
            {| serverData :=
                 {| own := <[serverId := renamed]> (own (serverData (store w)));
                    proto := proto (serverData (store w)) |};
               error := error (store w) |}
            (backend w1) (console w1)) ∧
       getServerData (store (updateServerName serverId newName w).2) serverId
       = MServer renamed ∧
       renamed !! "name" = Some (VJson (JString newName)) ∧
       (∀ field, field ≠ "name" → renamed !! field = current !! field) ∧
       (∀ other, other ≠ serverId →
          getServerData (store (updateServerName serverId newName w).2) other
          = getServerData (store w) other)) ∧
  (MemberOps.toBoolean (getServerData (store w) serverId) = false →
   updateServerName serverId newName w
   = (Return (),
      mkWorld (store w) (backend w1)
        (console w1 ++
           [console_warn_entry
              ("Attempting to update name for non-existent server data. Server ID: "
               +:+ serverId)]))) ∧
  (proto (serverData (store w)) = None → serverId ∉ Object_prototype →
   own (serverData (store w)) !! serverId = None →
   MemberOps.toBoolean (getServerData (store w) serverId) = false).
Proof.
  intros Hfetch. rewrite updateServerName_run, Hfetch. split; [|split].
  - intros current Hcur.
    exists (spread current {["name" := VJson (JString newName)]}).
    unfold getServerData. rewrite (lookup_member_own _ _ _ Hcur). simpl.
    rewrite (assign_own _ _ _ _ Hcur). split; [done|]. simpl.
    split; [|split; [|split]].
    + apply lookup_member_own. simpl. by rewrite lookup_insert_eq.
    + by rewrite spread_lookup, lookup_singleton_eq.
    + intros field Hne. by rewrite spread_lookup, lookup_singleton_ne.
    + intros other Hne. rewrite lookup_member_insert_ne by done. by rewrite dict_eta.
  - by intros ->.
  - apply guard_plain.
Qed.

(** X6. Two updates of a server that has an entry in the cache, one
    after the other, are one update with the two partial records merged,
    the later one winning; so an update done twice is the update done
    once. *)
Theorem updateServerData_twice serverId (first second : Server) w :
  is_Some (own (serverData (store w)) !! serverId) →
  updateServerData serverId second (updateServerData serverId first w).2
  = updateServerData serverId (spread first second) w ∧
  updateServerData serverId first (updateServerData serverId first w).2
  = updateServerData serverId first w.
Proof.
  intros [current Hcur].
  rewrite !(updateServerData_own _ _ w current) by done.
  rewrite !(updateServerData_own _ _ _ (spread current first))
    by (simpl; by rewrite lookup_insert_eq).
  simpl. rewrite !insert_insert_eq. unfold spread.
  by rewrite !(assoc_L (∪)), (idemp_L (∪) first).
Qed.

(** X7. An update leaves the store as it was when it finds nothing
    truthy under the identifier, and when the server has an entry and the
    partial record says nothing new (each of its fields has that value
    in the entry already; the empty record is the least such). *)
Theorem updateServerData_nothing_new serverId (data : Server) w :
  MemberOps.toBoolean (getServerData (store w) serverId) = false ∨
  (∃ current, own (serverData (store w)) !! serverId = Some current ∧ data ⊆ current) →
  store (updateServerData serverId data w).2 = store w.
Proof.
  intros [Hb|(current & Hcur & Hsub)].
  - rewrite updateServerData_run. by rewrite Hb.
  - rewrite (updateServerData_own _ _ _ _ Hcur). simpl.
    unfold spread. rewrite (map_subseteq_union data current) by done.
    rewrite insert_id by done. by rewrite dict_eta, store_eta.
Qed.

(** X8. When the rename request succeeds, [updateServerName] leaves the
    store as [updateServerData] with the partial record [{ name: newName }]
    leaves it, for a server that is cached and for one that is not. *)
Theorem updateServerName_as_updateServerData serverId newName w answered w1 :
  usePyroFetch TAny ("servers/" +:+ serverId +:+ "/name")
    (with_body POST (JObject [("name", JString newName)])) w
    = (Return answered, w1) →
  store (updateServerName serverId newName w).2
  = store (updateServerData serverId {["name" := VJson (JString newName)]} w).2.
Proof.
  intros Hfetch. rewrite updateServerName_run, Hfetch, updateServerData_run.
  by destruct (MemberOps.toBoolean _).
Qed.

(** ** The backup list, again *)

(** X9. A list that the backend sends most recent first already is
    returned by [fetchServerBackups] as it is. *)
Theorem fetchServerBackups_in_order auth serverId w result w1 :
  usePyroFetch TBackups ("servers/" +:+ serverId +:+ "/backups") (with_session auth) w
    = (Return result, w1) →
  newest_first result →
  fetchServerBackups auth serverId w = (Return result, w1).
Proof.
  intros Hfetch Hsorted. unfold fetchServerBackups. apply logged_return.
  rewrite (bind_run _ _ _ _ _ Hfetch). simpl. unfold mret, Action_ret. do 2 f_equal.
  apply (ArrayFacts.sort_in_order ServerBackup.created_at js_gt);
    eauto using by_created_at_negative.
  eapply StronglySorted_weaken; [|exact Hsorted].
  intros a b Hab. unfold in_order.
  destruct (js_gt (ServerBackup.created_at b) (ServerBackup.created_at a)) eqn:Hgt;
    [|done].
  by apply js_gt_le in Hgt.
Qed.

(** X10. After a [fetchServerData] that returns, the record written
    under [serverId] has a [backups] field that holds the list the
    backend gave for that server's backups, rearranged most recent first;
    that record is what [getServerData] gives for [serverId], unless
    [serverId] is ["__proto__"] and the record has a field of that
    name. *)
Theorem fetched_record_has_backups_newest_first auth serverId w w' :
  fetchServerData auth serverId w = (Return (), w') →
  ∃ record backups result b2,
    pyro_backend TBackups ("servers/" +:+ serverId +:+ "/backups")
      {| session := Some auth; method := None; body := None |} b2
      = (inr result, backend w') ∧
    backups ≡ₚ result ∧
    newest_first backups ∧
    record !! "backups" = Some (VBackups backups) ∧
    prop record "backups" = VBackups backups ∧
    serverData (store w') = assign (serverData (store w)) serverId record ∧
    ((serverId = "__proto__" → record !! "__proto__" = None) →
     getServerData (store w') serverId = MServer record).
Proof.
  intros Hrun.
  destruct (fetchServerData_cases auth serverId w)
    as [(record & b3 & Hs & Hw)|(cause & bk & logs & _ & Hw)];
    rewrite Hw in Hrun; [|done].
  injection Hrun as <-. clear Hw.
  destruct Hs as [data b1 data' b2 result b3 Hs Hr Hb].
  eexists _, (Array.sort by_created_at result), result, b2. simpl.
  split; [exact Hb|]. split; [apply ArrayFacts.sort_perm|].
  split; [apply sort_newest_first|]. unfold prop. rewrite lookup_insert_eq.
  repeat split. intros Hp. unfold getServerData. simpl. by apply lookup_assign_read.
Qed.

(** ** What a fetch does not look at *)

(** X11. A call of [fetchServerData] never looks at the store: run
    against the same backend in front of two stores, it completes the
    same way, leaves the backend and the error slot the same, and, when
    it returns, has assigned the same record under [serverId]; that
    record is what [getServerData] then gives for [serverId] in both,
    unless [serverId] is ["__proto__"] and the record has a field of that
    name. *)
Theorem fetchServerData_ignores_store auth serverId w w' :
  backend w = backend w' →
  (fetchServerData auth serverId w).1 = (fetchServerData auth serverId w').1 ∧
  backend (fetchServerData auth serverId w).2
  = backend (fetchServerData auth serverId w').2 ∧
  error (store (fetchServerData auth serverId w).2)
  = error (store (fetchServerData auth serverId w').2) ∧
  ((fetchServerData auth serverId w).1 = Return () →
   ∃ record,
     serverData (store (fetchServerData auth serverId w).2)
     = assign (serverData (store w)) serverId record ∧
     serverData (store (fetchServerData auth serverId w').2)
     = assign (serverData (store w')) serverId record ∧
     ((serverId = "__proto__" → record !! "__proto__" = None) →
      getServerData (store (fetchServerData auth serverId w).2) serverId = MServer record ∧
      getServerData (store (fetchServerData auth serverId w).2) serverId
      = getServerData (store (fetchServerData auth serverId w').2) serverId)).
Proof.
  intros Hb.
  destruct (fetch_course auth serverId (backend w))
    as [(record & b3 & Hs)|(cause & bk & logs & Hf)].
  - rewrite (Success_run _ _ w _ _ Hs). rewrite Hb in Hs.
    rewrite (Success_run _ _ w' _ _ Hs). simpl. repeat split.
    intros _. exists record. repeat split; unfold getServerData; simpl;
      by rewrite !lookup_assign_read.
  - rewrite (Failure_run _ _ w _ _ _ Hf). rewrite Hb in Hf.
    rewrite (Failure_run _ _ w' _ _ _ Hf). by simpl.
Qed.

(** X12. A [fetchServerData] that returns discards what an earlier
    [updateServerData] of the same server did: with or without that
    update before it, the fetch returns and leaves the same store.  (An
    update of ["__proto__"] with a partial record that has a field of
    that name apart, which changes what the later write does.) *)
Theorem fetchServerData_discards_update auth serverId (data : Server) w w' :
  (serverId = "__proto__" → data !! "__proto__" = None) →
  fetchServerData auth serverId w = (Return (), w') →
  (fetchServerData auth serverId (updateServerData serverId data w).2).1 = Return () ∧
  store (fetchServerData auth serverId (updateServerData serverId data w).2).2 = store w'.
Proof.
  intros Hp Hrun.
  destruct (fetchServerData_cases auth serverId w)
    as [(record & b3 & Hs & Hw)|(cause & bk & logs & _ & Hw)];
    rewrite Hw in Hrun; [|done].
  injection Hrun as <-. clear Hw.
  assert (backend w = backend (updateServerData serverId data w).2) as Hb.
  { rewrite updateServerData_run. by destruct (MemberOps.toBoolean _). }
  rewrite Hb in Hs. rewrite (Success_run _ _ _ _ _ Hs).
  split; [done|]. simpl. f_equal.
  rewrite updateServerData_run.
  destruct (MemberOps.toBoolean _); simpl; [|done].
  apply assign_assign. intros -> Hown Hfield. specialize (Hp eq_refl).
  unfold getServerData, lookup_member, spread. rewrite Hown.
  apply lookup_union_None. split; [done|].
  destruct (proto (serverData (store w))) as [d|]; simpl in *; [|done].
  by rewrite Hfield.
Qed.

(** X13. A [fetchServerData] that throws, followed by [clearError],
    leaves the cache as it was before the fetch and the error slot empty:
    nothing of the failed fetch stays in the store. *)
Theorem failed_fetch_then_clearError auth serverId w thrown :
  (fetchServerData auth serverId w).1 = Throw thrown →
  clearError (fetchServerData auth serverId w).2
  = (Return (),
     mkWorld {| serverData := serverData (store w); error := None |}
       (backend (fetchServerData auth serverId w).2)
       (console (fetchServerData auth serverId w).2)) ∧
  hasError (store (clearError (fetchServerData auth serverId w).2).2) = false.
Proof.
  destruct (fetchServerData_cases auth serverId w)
    as [(record & b3 & _ & ->)|(cause & bk & logs & _ & ->)]; [done|].
  by intros _.
Qed.

End StoreFacts.

(** * The properties at work

    Runs of the store against the scripted backends. *)

(** The scenario of the specification: two backups, the older first. *)
Example backups_scenario :
  Array.sort by_created_at [Demo.january; Demo.march] = [Demo.march; Demo.january].
Proof. reflexivity. Qed.

(** Two backups of one timestamp keep their order. *)
Example backups_ties :
  Array.sort by_created_at [Demo.january; Demo.march; Demo.march_again]
  = [Demo.march; Demo.march_again; Demo.january].
Proof. reflexivity. Qed.

Lemma fetchServerBackups_newest_first_witness :
  ∃ sorted,
    fetchServerBackups "tok" "srv1" (Demo.fresh (Demo.answers 1))
    = (Return sorted, Demo.fresh (Demo.answers 0)) ∧
    sorted ≡ₚ [Demo.january; Demo.march; Demo.march_again] ∧
    newest_first sorted ∧
    ∀ t, filter (λ b, ServerBackup.created_at b = t) sorted
         = filter (λ b, ServerBackup.created_at b = t)
             [Demo.january; Demo.march; Demo.march_again].
Proof.
  apply (fetchServerBackups_newest_first "tok" "srv1" (Demo.fresh (Demo.answers 1))).
  reflexivity.
Defined.

(** ** The cache is a plain object

    [serverData] starts as [{}] and is read and written under whatever
    string the caller passes as [serverId].  Under the names that
    [Object.prototype] has, the object is not the empty mapping it is
    meant to be: a read finds the inherited member, the guard
    [!this.serverData[serverId]] of the two updates takes it for an
    entry, and a write under ["__proto__"] replaces the prototype instead
    of making an entry. *)

(** C9, in the initial state: nothing has been fetched, and
    [getServerData] gives a member of [Object.prototype] for ["toString"],
    for ["constructor"] and for ["__proto__"], where the specification
    has [undefined]; for a name such as ["srv1"] it does give
    [undefined]. *)
Lemma getServerData_inherited_name :
  own (serverData state) = ∅ ∧
  error state = None ∧
  getServerData state "toString" = MBuiltin "toString" ∧
  getServerData state "constructor" = MBuiltin "constructor" ∧
  getServerData state "__proto__" = MBuiltin "__proto__" ∧
  getServerData state "srv1" = MUndefined.
Proof. repeat split. Qed.

(** C6, for a server that is not cached: in a fresh store
    [updateServerData("constructor", { name: "X" })] finds the inherited
    member, takes the server for cached, and makes an entry that holds
    the partial record alone; it writes no warning. *)
Lemma updateServerData_inherited_name :
  own (serverData (store (Demo.fresh (Demo.answers 0)))) !! "constructor" = None ∧
  updateServerData "constructor" {["name" := VJson (JString "X")]}
    (Demo.fresh (Demo.answers 0))
  = (Return (),
     mkWorld
       {| serverData :=
            {| own := {["constructor" := {["name" := VJson (JString "X")]}]};
               proto := None |};
          error := None |}
       (Demo.answers 0) []) ∧
  getServerData
    (store (updateServerData "constructor" {["name" := VJson (JString "X")]}
              (Demo.fresh (Demo.answers 0))).2) "constructor"
  = MServer {["name" := VJson (JString "X")]}.
Proof. repeat split. Qed.

(** C7, for a server that is not cached: in a fresh store, with a rename
    request that succeeds, [updateServerName("constructor", "new")] makes
    an entry that holds the name alone, and writes no warning. *)
Lemma updateServerName_inherited_name :
  own (serverData (store (Demo.fresh (Demo.answers 1)))) !! "constructor" = None ∧
  usePyroFetch TAny ("servers/" +:+ "constructor" +:+ "/name")
    (with_body POST (JObject [("name", JString "new")])) (Demo.fresh (Demo.answers 1))
  = (Return (JNull : payload TAny), Demo.fresh (Demo.answers 0)) ∧
  updateServerName "constructor" "new" (Demo.fresh (Demo.answers 1))
  = (Return (),
     mkWorld
       {| serverData :=
            {| own := {["constructor" := {["name" := VJson (JString "new")]}]};
               proto := None |};
          error := None |}
       (Demo.answers 0) []) ∧
  getServerData
    (store (updateServerName "constructor" "new" (Demo.fresh (Demo.answers 1))).2)
    "constructor"
  = MServer {["name" := VJson (JString "new")]}.
Proof. repeat split. Qed.

(** C1, for the server ["__proto__"]: a fetch that succeeds makes no
    entry.  The record becomes the prototype of the cache, so its fields
    are read as if they were servers; and when the record has a field
    named ["__proto__"] itself, [getServerData("__proto__")] gives the
    value of that field, not the record. *)
Lemma fetchServerData_proto_record :
  fetchServerData "tok" "__proto__" Crafted.fresh
  = (Return (),
     mkWorld
       {| serverData := {| own := ∅; proto := Some Crafted.fetched |}; error := None |}
       Crafted.mk []) ∧
  Crafted.fetched
  = <["backups" := VBackups []]>
      (<["__proto__" := VJson (JString "crafted")]>
         (<["name" := VJson (JString "survival")]> ∅)) ∧
  getServerData (store (fetchServerData "tok" "__proto__" Crafted.fresh).2) "__proto__"
  = MValue (VJson (JString "crafted")) ∧
  getServerData (store (fetchServerData "tok" "__proto__" Crafted.fresh).2) "__proto__"
  ≠ MServer Crafted.fetched ∧
  getServerData (store (fetchServerData "tok" "__proto__" Crafted.fresh).2) "name"
  = MValue (VJson (JString "survival")).
Proof. repeat split. discriminate. Qed.

(** With a record that has no such field, the read under
    ["__proto__"] gives the record back; the cache still has no entry,
    and reads the fields of the record as servers. *)
Example fetchServerData_proto_scenario :
  own (serverData (store (fetchServerData "tok" "__proto__"
                            (Demo.fresh (Demo.answers 4))).2)) = ∅ ∧
  (∃ record,
     proto (serverData (store (fetchServerData "tok" "__proto__"
                                 (Demo.fresh (Demo.answers 4))).2)) = Some record ∧
     getServerData (store (fetchServerData "tok" "__proto__"
                             (Demo.fresh (Demo.answers 4))).2) "__proto__"
     = MServer record) ∧
  getServerData (store (fetchServerData "tok" "__proto__"
                          (Demo.fresh (Demo.answers 4))).2) "name"
  = MValue (VJson (JString "survival")).
Proof. split; [reflexivity|]. split; [|reflexivity]. eexists. split; reflexivity. Qed.

(** ** fetchServerData *)

(** A fetch of a server with a modpack, in front of a store that has an
    entry for the server and an earlier error: the entry is replaced,
    not merged (its [motd] is gone), and the error is cleared. *)
Lemma fetchServerData_success_witness :
  getServerData (store (Demo.used (Demo.answers 4))) "srv1" = MServer Demo.cached ∧
  Demo.cached !! "motd" = Some (VJson (JString "hello")) ∧
  error (store (Demo.used (Demo.answers 4))) = Some Demo.stale ∧
  fetchServerData "tok" "srv1" (Demo.used (Demo.answers 4))
  = (Return (), (fetchServerData "tok" "srv1" (Demo.used (Demo.answers 4))).2) ∧
  ∃ backups,
    backups ≡ₚ [Demo.january; Demo.march; Demo.march_again] ∧
    newest_first backups ∧
    getServerData (store (fetchServerData "tok" "srv1" (Demo.used (Demo.answers 4))).2)
      "srv1"
    = MServer (<["backups" := VBackups backups]>
                 (<["project" := VProject Demo.project]>
                    (<["modpack_id" := VJson (JString "ver1")]> Demo.server))) ∧
    (<["backups" := VBackups backups]>
       (<["project" := VProject Demo.project]>
          (<["modpack_id" := VJson (JString "ver1")]> Demo.server))) !! "motd" = None ∧
    error (store (fetchServerData "tok" "srv1" (Demo.used (Demo.answers 4))).2) = None ∧
    hasError (store (fetchServerData "tok" "srv1" (Demo.used (Demo.answers 4))).2) = false.
Proof.
  assert (fetchServerData "tok" "srv1" (Demo.used (Demo.answers 4))
          = (Return (), (fetchServerData "tok" "srv1" (Demo.used (Demo.answers 4))).2))
    as Hrun by reflexivity.
  do 3 (split; [reflexivity|]). split; [exact Hrun|].
  destruct (fetchServerData_success "tok" "srv1" _ _ Hrun)
    as (data & b1 & modpack & data' & b2 & result & b3 & backups
        & Hdata & Hmodpack & _ & _ & Hresolved & Hresult & Hperm & Hnewest & _ & _ & _
        & Hread & Herr & Hhas).
  injection Hdata as <- <-.
  assert (modpack = Some "mp1") as -> by exact Hmodpack.
  destruct Hresolved as (pid & bv & project & Hpid & Hproject & ->).
  injection Hpid as <- <-. injection Hproject as <- <-.
  injection Hresult as <- <-.
  exists backups. split; [exact Hperm|]. split; [exact Hnewest|].
  split; [exact (Hread ltac:(discriminate))|]. split; [reflexivity|].
  split; [exact Herr|exact Hhas].
Defined.

(** The backup fetch fails, in front of a store that has "srv1" cached. *)
Lemma fetchServerData_failure_witness :
  Failure "tok" "srv1" (Demo.answers 3) (ThrownError Demo.offline) (Demo.answers 0)
    [console_error_entry "Error fetching server backups:" (ThrownError Demo.offline)] ∧
  ∃ thrown w',
    fetchServerData "tok" "srv1" (Demo.used (Demo.answers 3)) = (Throw thrown, w') ∧
    getServerData (store w') "srv1" = MServer Demo.cached ∧
    error (store w') = Some Demo.offline ∧
    hasError (store w') = true ∧
    thrown = ThrownError Demo.offline ∧
    console w'
    = [console_error_entry "Error fetching server backups:" (ThrownError Demo.offline);
       console_error_entry "(PYROFETCH) Error fetching server data:"
         (ThrownError Demo.offline)].
Proof.
  assert (Failure "tok" "srv1" (Demo.answers 3) (ThrownError Demo.offline) (Demo.answers 0)
            [console_error_entry "Error fetching server backups:"
               (ThrownError Demo.offline)]) as Hfails.
  { eapply failure_backups;
      [reflexivity|eapply resolution_modpack; reflexivity|reflexivity]. }
  split; [exact Hfails|].
  destruct (fetchServerData_failure "tok" "srv1" (Demo.used (Demo.answers 3)) _ _ _ Hfails)
    as (thrown & w' & Hrun & _ & Hall & Herr & Hhas & _ & Hthrown & _ & _ & Hlog).
  exists thrown, w'. split; [exact Hrun|].
  split; [by rewrite Hall|]. split; [exact Herr|]. split; [exact Hhas|].
  split; [exact Hthrown|exact Hlog].
Defined.

(** C2, as the specification has it, fails: the request for the server
    fails with the string "boom", and what the caller gets is not that
    failure but a new [Error]. *)
Lemma fetchServerData_raises_another_value :
  Failure "tok" "srv1" Demo.rude (ThrownValue (VJson (JString "boom"))) Demo.rude [] ∧
  (fetchServerData "tok" "srv1" (Demo.fresh Demo.rude)).1
  = Throw (ThrownError (new_Error "An unknown error occurred")) ∧
  ¬ (∀ (w : World Demo.t) auth serverId cause bk logs thrown,
       Failure auth serverId (backend w) cause bk logs →
       (fetchServerData auth serverId w).1 = Throw thrown →
       thrown = cause).
Proof.
  assert (Failure "tok" "srv1" Demo.rude (ThrownValue (VJson (JString "boom")))
            Demo.rude []) as Hfails by (by apply failure_server).
  split; [exact Hfails|]. split; [reflexivity|].
  intros Hclaim.
  specialize (Hclaim (Demo.fresh Demo.rude) "tok" "srv1" _ _ _ _ Hfails eq_refl).
  discriminate Hclaim.
Qed.

(** ** listServers and the error slot *)

(** The fetch throws "offline"; the caller gets "stale", the error of an
    earlier call. *)
Lemma listServers_rethrows_slot_witness :
  usePyroFetch TServerList "servers" (with_session "tok") (Demo.used (Demo.answers 0))
  = (Throw (ThrownError Demo.offline), Demo.used (Demo.answers 0)) ∧
  (listServers "tok" (Demo.used (Demo.answers 0))).1 = Throw (ThrownError Demo.stale) ∧
  serverData (store (listServers "tok" (Demo.used (Demo.answers 0))).2)
  = serverData (store (Demo.used (Demo.answers 0))).
Proof.
  assert (usePyroFetch TServerList "servers" (with_session "tok")
            (Demo.used (Demo.answers 0))
          = (Throw (ThrownError Demo.offline), Demo.used (Demo.answers 0)))
    as Hfetch by reflexivity.
  assert (listServers "tok" (Demo.used (Demo.answers 0))
          = ((listServers "tok" (Demo.used (Demo.answers 0))).1,
             (listServers "tok" (Demo.used (Demo.answers 0))).2))
    as Hrun by reflexivity.
  split; [exact Hfetch|].
  destruct (listServers_rethrows_slot "tok" _ _ _ Hrun) as (Hcache & Hfail & _).
  split; [|exact Hcache].
  rewrite (Hfail _ _ Hfetch). reflexivity.
Defined.

(** With no error stored, a failing [listServers] throws [null]. *)
Example listServers_throws_null :
  (listServers "tok" (Demo.fresh (Demo.answers 0))).1 = Throw (ThrownValue (VJson JNull)).
Proof. reflexivity. Qed.

(** C5, as the specification has it, fails: a power action that fails
    with "offline" leaves an empty error slot empty, and leaves a slot
    that holds the error of an earlier call holding that one.  So it is
    not the case that after every failing call the slot holds what the
    call threw. *)
Lemma failing_sendPowerAction_leaves_error_slot :
  (sendPowerAction "srv1" "start" (Demo.fresh (Demo.answers 0))).1
  = Throw (ThrownError Demo.offline) ∧
  error (store (sendPowerAction "srv1" "start" (Demo.fresh (Demo.answers 0))).2) = None ∧
  hasError (store (sendPowerAction "srv1" "start" (Demo.fresh (Demo.answers 0))).2) = false ∧
  (sendPowerAction "srv1" "start" (Demo.used (Demo.answers 0))).1
  = Throw (ThrownError Demo.offline) ∧
  error (store (sendPowerAction "srv1" "start" (Demo.used (Demo.answers 0))).2)
  = Some Demo.stale ∧
  Demo.stale ≠ Demo.offline ∧
  ¬ (∀ (c : Call) (w : World Demo.t) thrown,
       (run c w).1 = Throw thrown →
       slot_value (error (store (run c w).2)) = thrown).
Proof.
  repeat split; [discriminate|].
  intros Hclaim.
  specialize (Hclaim (call_sendPowerAction "srv1" "start") (Demo.fresh (Demo.answers 0))
                (ThrownError Demo.offline) eq_refl).
  discriminate Hclaim.
Qed.

(** A slot that holds an error is emptied by a fetch that succeeds; a
    fetch whose request for the project fails with "offline" puts that
    failure in the slot, where "stale" was. *)
Lemma error_slot_call_by_call_witness :
  (error (store (Demo.used (Demo.answers 4))) ≠ None ∧
   error (store (run (call_fetchServerData "tok" "srv1") (Demo.used (Demo.answers 4))).2)
   = None ∧
   (call_fetchServerData "tok" "srv1" = call_clearError ∨
    ∃ auth serverId,
      call_fetchServerData "tok" "srv1" = call_fetchServerData auth serverId ∧
      (run (call_fetchServerData "tok" "srv1") (Demo.used (Demo.answers 4))).1
      = Return ())) ∧
  error (store (Demo.used (Demo.answers 2))) = Some Demo.stale ∧
  (run (call_fetchServerData "tok" "srv1") (Demo.used (Demo.answers 2))).1
  = Throw (ThrownError Demo.offline) ∧
  ∃ cause bk logs,
    Failure "tok" "srv1" (Demo.answers 2) cause bk logs ∧
    error (store (run (call_fetchServerData "tok" "srv1") (Demo.used (Demo.answers 2))).2)
    = Some (match cause with
            | ThrownError e => e
            | ThrownValue _ => new_Error "An unknown error occurred"
            end) ∧
    ThrownError Demo.offline
    = slot_value
        (error (store (run (call_fetchServerData "tok" "srv1")
                         (Demo.used (Demo.answers 2))).2)).
Proof.
  split; [|split; [reflexivity|split; [reflexivity|]]].
  - split; [discriminate|]. split; [reflexivity|].
    apply (proj1 (proj2 (error_slot_call_by_call (call_fetchServerData "tok" "srv1")
                           (Demo.used (Demo.answers 4))))).
    + discriminate.
    + reflexivity.
  - apply (proj2 (proj2 (error_slot_call_by_call (call_fetchServerData "tok" "srv1")
                           (Demo.used (Demo.answers 2))))
             "tok" "srv1" (ThrownError Demo.offline)); reflexivity.
Defined.

(** ** updateServerData and updateServerName *)

Example updateServerData_scenario :
  getServerData
    (store (updateServerData "srv1" {["name" := VJson (JString "X")]}
              (Demo.used (Demo.answers 0))).2) "srv1"
  = MServer (<["name" := VJson (JString "X")]> Demo.cached).
Proof. reflexivity. Qed.

(** The scenario of the specification: a rename of "srv1", which is not
    cached. *)
Lemma updateServerName_success_witness :
  updateServerName "srv1" "new" (Demo.fresh (Demo.answers 1))
  = (Return (),
     mkWorld state (Demo.answers 0)
       [console_warn_entry
          "Attempting to update name for non-existent server data. Server ID: srv1"]) ∧
  ∃ renamed,
    getServerData (store (updateServerName "srv1" "new" (Demo.used (Demo.answers 1))).2)
      "srv1"
    = MServer renamed ∧
    renamed !! "name" = Some (VJson (JString "new")) ∧
    renamed !! "motd" = Some (VJson (JString "hello")).
Proof.
  assert (usePyroFetch TAny ("servers/" +:+ "srv1" +:+ "/name")
            (with_body POST (JObject [("name", JString "new")]))
            (Demo.fresh (Demo.answers 1))
          = (Return (JNull : payload TAny), Demo.fresh (Demo.answers 0)))
    as Hfresh by reflexivity.
  assert (usePyroFetch TAny ("servers/" +:+ "srv1" +:+ "/name")
            (with_body POST (JObject [("name", JString "new")]))
            (Demo.used (Demo.answers 1))
          = (Return (JNull : payload TAny), Demo.used (Demo.answers 0)))
    as Hused by reflexivity.
  split.
  - exact (proj1 (proj2 (updateServerName_success "srv1" "new" _ _ _ Hfresh)) eq_refl).
  - destruct (proj1 (updateServerName_success "srv1" "new" _ _ _ Hused)
                Demo.cached eq_refl)
      as (renamed & _ & Hread & Hname & Hfields & _).
    exists renamed. split; [exact Hread|]. split; [exact Hname|].
    rewrite (Hfields "motd" ltac:(discriminate)). reflexivity.
Defined.

Example updateServerName_cached :
  getServerData (store (updateServerName "srv1" "new" (Demo.used (Demo.answers 1))).2) "srv1"
  = MServer (<["name" := VJson (JString "new")]> Demo.cached).
Proof. reflexivity. Qed.

Lemma updateServerName_failure_witness :
  ∃ w',
    updateServerName "srv1" "new" (Demo.used (Demo.answers 0))
    = (Throw (ThrownError Demo.offline), w') ∧
    serverData (store w') = serverData (store (Demo.used (Demo.answers 0))) ∧
    store w' = store (Demo.used (Demo.answers 0)).
Proof.
  assert (usePyroFetch TAny ("servers/" +:+ "srv1" +:+ "/name")
            (with_body POST (JObject [("name", JString "new")]))
            (Demo.used (Demo.answers 0))
          = (Throw (ThrownError Demo.offline), Demo.used (Demo.answers 0)))
    as Hfetch by reflexivity.
  exact (updateServerName_failure "srv1" "new" _ _ _ Hfetch).
Defined.

(** * More runs *)

(** A fetch into a fresh store changes what the cache holds for "srv1". *)
Lemma cache_entry_changed_only_by_witness :
  ∃ serverId,
    target (call_fetchServerData "tok" "srv1") = Some serverId ∧
    (serverId = "srv1" ∨ serverId = "__proto__") ∧
    ((∃ auth,
        call_fetchServerData "tok" "srv1" = call_fetchServerData auth serverId ∧
        (run (call_fetchServerData "tok" "srv1") (Demo.fresh (Demo.answers 4))).1
        = Return ()) ∨
     (∃ data,
        call_fetchServerData "tok" "srv1" = call_updateServerData serverId data ∧
        MemberOps.toBoolean (getServerData (store (Demo.fresh (Demo.answers 4))) serverId)
        = true) ∨
     (∃ newName,
        call_fetchServerData "tok" "srv1" = call_updateServerName serverId newName ∧
        MemberOps.toBoolean (getServerData (store (Demo.fresh (Demo.answers 4))) serverId)
        = true ∧
        (run (call_fetchServerData "tok" "srv1") (Demo.fresh (Demo.answers 4))).1
        = Return ())).
Proof.
  apply (cache_entry_changed_only_by (call_fetchServerData "tok" "srv1")
           (Demo.fresh (Demo.answers 4)) "srv1").
  vm_compute. discriminate.
Defined.

(** An update of ["__proto__"] changes what the cache holds for "name". *)
Example cache_entry_changed_through_proto :
  getServerData (store (Demo.fresh (Demo.answers 0))) "name" = MUndefined ∧
  getServerData
    (store (run (call_updateServerData "__proto__" {["name" := VJson (JString "X")]})
              (Demo.fresh (Demo.answers 0))).2) "name"
  = MValue (VJson (JString "X")).
Proof. split; reflexivity. Qed.

(** "srv1" is cached; a failing fetch of it, a rename and a failing
    power action later it still is. *)
Lemma cached_server_stays_cached_witness :
  is_Some
    (own (serverData
            (store (run_all [call_updateServerName "srv1" "new";
                             call_fetchServerData "tok" "srv1";
                             call_sendPowerAction "srv1" "stop"]
                      (Demo.used (Demo.answers 1))).2)) !! "srv1") ∧
  ∃ record,
    getServerData
      (store (run_all [call_updateServerName "srv1" "new";
                       call_fetchServerData "tok" "srv1";
                       call_sendPowerAction "srv1" "stop"]
                (Demo.used (Demo.answers 1))).2) "srv1"
    = MServer record.
Proof.
  apply (cached_server_stays_cached _ (Demo.used (Demo.answers 1)) "srv1").
  eexists. reflexivity.
Defined.

Lemma cached_iff_fetched_witness :
  getServerData
    (store (run_all [call_fetchServerData "tok" "srv1";
                     call_sendPowerAction "srv1" "stop"]
              (mkWorld state (Demo.answers 4) [])).2) "srv1"
  ≠ MUndefined.
Proof.
  apply (proj2 (cached_iff_fetched (Demo.answers 4)
                  [call_fetchServerData "tok" "srv1"; call_sendPowerAction "srv1" "stop"]
                  "srv1"
                  ltac:(by apply (bool_decide_unpack ("srv1" ∉ Object_prototype)))
                  ltac:(intros c Hin;
                        repeat (apply elem_of_cons in Hin as [->|Hin]; [discriminate|]);
                        by apply elem_of_nil in Hin))).
  exists "tok". vm_compute. left.
Defined.

(** Three calls fail against a backend that is offline; [hasError]
    stays false. *)
Lemma hasError_only_from_fetchServerData_witness :
  hasError
    (store (run_all [call_sendPowerAction "srv1" "start";
                     call_listServers "tok";
                     call_updateServerName "srv1" "new"]
              (Demo.fresh (Demo.answers 0))).2)
  = false.
Proof.
  apply (hasError_only_from_fetchServerData _ (Demo.fresh (Demo.answers 0))).
  - reflexivity.
  - intros auth s t Hin. vm_compute in Hin.
    repeat (apply elem_of_cons in Hin as [Hin|Hin]; [discriminate Hin|]).
    by apply elem_of_nil in Hin.
Defined.

Lemma updateServerData_twice_witness :
  updateServerData "srv1" {["motd" := VJson (JString "hi")]}
    (updateServerData "srv1" {["name" := VJson (JString "X")]}
       (Demo.used (Demo.answers 0))).2
  = updateServerData "srv1"
      (spread {["name" := VJson (JString "X")]} {["motd" := VJson (JString "hi")]})
      (Demo.used (Demo.answers 0)) ∧
  updateServerData "srv1" {["name" := VJson (JString "X")]}
    (updateServerData "srv1" {["name" := VJson (JString "X")]}
       (Demo.used (Demo.answers 0))).2
  = updateServerData "srv1" {["name" := VJson (JString "X")]} (Demo.used (Demo.answers 0)).
Proof.
  apply (updateServerData_twice "srv1" {["name" := VJson (JString "X")]}
           {["motd" := VJson (JString "hi")]} (Demo.used (Demo.answers 0))).
  eexists. reflexivity.
Defined.

(** "srv1" is cached with the [motd] "hello"; an update that sets it to
    "hello" changes nothing. *)
Lemma updateServerData_nothing_new_witness :
  store (updateServerData "srv1" {["motd" := VJson (JString "hello")]}
           (Demo.used (Demo.answers 0))).2
  = store (Demo.used (Demo.answers 0)).
Proof.
  apply (updateServerData_nothing_new "srv1" {["motd" := VJson (JString "hello")]}
           (Demo.used (Demo.answers 0))).
  right. exists Demo.cached. split; [reflexivity|].
  apply map_singleton_subseteq_l. reflexivity.
Defined.

Lemma updateServerName_as_updateServerData_witness :
  store (updateServerName "srv1" "new" (Demo.used (Demo.answers 1))).2
  = store (updateServerData "srv1" {["name" := VJson (JString "new")]}
             (Demo.used (Demo.answers 1))).2.
Proof.
  assert (usePyroFetch TAny ("servers/" +:+ "srv1" +:+ "/name")
            (with_body POST (JObject [("name", JString "new")]))
            (Demo.used (Demo.answers 1))
          = (Return (JNull : payload TAny), Demo.used (Demo.answers 0)))
    as Hfetch by reflexivity.
  exact (updateServerName_as_updateServerData "srv1" "new" _ _ _ Hfetch).
Defined.

(** The backend holds March before January; the list comes back as it is. *)
Lemma fetchServerBackups_in_order_witness :
  fetchServerBackups "tok" "srv1" (mkWorld state (Shelf.mk [Demo.march; Demo.january]) [])
  = (Return [Demo.march; Demo.january],
     mkWorld state (Shelf.mk [Demo.march; Demo.january]) []).
Proof.
  apply (fetchServerBackups_in_order "tok" "srv1").
  - reflexivity.
  - repeat constructor.
Defined.

Lemma fetched_record_has_backups_newest_first_witness :
  ∃ record backups result b2,
    pyro_backend TBackups ("servers/" +:+ "srv1" +:+ "/backups")
      {| session := Some "tok"; method := None; body := None |} b2
      = (inr result,
         backend (fetchServerData "tok" "srv1" (Demo.used (Demo.answers 4))).2) ∧
    backups ≡ₚ result ∧
    newest_first backups ∧
    record !! "backups" = Some (VBackups backups) ∧
    prop record "backups" = VBackups backups ∧
    serverData (store (fetchServerData "tok" "srv1" (Demo.used (Demo.answers 4))).2)
    = assign (serverData (store (Demo.used (Demo.answers 4)))) "srv1" record ∧
    (("srv1" = "__proto__" → record !! "__proto__" = None) →
     getServerData (store (fetchServerData "tok" "srv1" (Demo.used (Demo.answers 4))).2)
       "srv1"
     = MServer record).
Proof.
  assert (fetchServerData "tok" "srv1" (Demo.used (Demo.answers 4))
          = (Return (), (fetchServerData "tok" "srv1" (Demo.used (Demo.answers 4))).2))
    as Hrun by reflexivity.
  exact (fetched_record_has_backups_newest_first "tok" "srv1" _ _ Hrun).
Defined.

(** The same fetch in front of a fresh store and of a used one. *)
Lemma fetchServerData_ignores_store_witness :
  (fetchServerData "tok" "srv1" (Demo.fresh (Demo.answers 4))).1
  = (fetchServerData "tok" "srv1" (Demo.used (Demo.answers 4))).1 ∧
  backend (fetchServerData "tok" "srv1" (Demo.fresh (Demo.answers 4))).2
  = backend (fetchServerData "tok" "srv1" (Demo.used (Demo.answers 4))).2 ∧
  error (store (fetchServerData "tok" "srv1" (Demo.fresh (Demo.answers 4))).2)
  = error (store (fetchServerData "tok" "srv1" (Demo.used (Demo.answers 4))).2) ∧
  getServerData (store (fetchServerData "tok" "srv1" (Demo.fresh (Demo.answers 4))).2) "srv1"
  = getServerData (store (fetchServerData "tok" "srv1" (Demo.used (Demo.answers 4))).2)
      "srv1".
Proof.
  destruct (fetchServerData_ignores_store "tok" "srv1" (Demo.fresh (Demo.answers 4))
              (Demo.used (Demo.answers 4)) eq_refl)
    as (Hcompletion & Hbackend & Herror & Hrecord).
  do 3 (split; [assumption|]).
  destruct (Hrecord eq_refl) as (record & _ & _ & Hread).
  exact (proj2 (Hread ltac:(discriminate))).
Defined.

(** Under ["__proto__"], with a record that has a field of that name,
    the two stores differ in what they give back: in front of a fresh
    store the record becomes the prototype and the read finds its field;
    in front of a store that has an own property of that name the record
    becomes that property. *)
Example fetchServerData_sees_store_through_proto :
  backend Crafted.fresh
  = backend (run_all [call_fetchServerData "tok" "__proto__";
                      call_fetchServerData "tok" "__proto__"] Crafted.fresh).2 ∧
  getServerData (store (fetchServerData "tok" "__proto__" Crafted.fresh).2) "__proto__"
  = MValue (VJson (JString "crafted")) ∧
  getServerData
    (store (fetchServerData "tok" "__proto__"
              (run_all [call_fetchServerData "tok" "__proto__";
                        call_fetchServerData "tok" "__proto__"] Crafted.fresh).2).2)
    "__proto__"
  = MServer Crafted.fetched.
Proof. repeat split. Qed.

Lemma fetchServerData_discards_update_witness :
  (fetchServerData "tok" "srv1"
     (updateServerData "srv1" {["name" := VJson (JString "X")]}
        (Demo.used (Demo.answers 4))).2).1
  = Return () ∧
  store (fetchServerData "tok" "srv1"
           (updateServerData "srv1" {["name" := VJson (JString "X")]}
              (Demo.used (Demo.answers 4))).2).2
  = store (fetchServerData "tok" "srv1" (Demo.used (Demo.answers 4))).2.
Proof.
  assert (fetchServerData "tok" "srv1" (Demo.used (Demo.answers 4))
          = (Return (), (fetchServerData "tok" "srv1" (Demo.used (Demo.answers 4))).2))
    as Hrun by reflexivity.
  exact (fetchServerData_discards_update "tok" "srv1" {["name" := VJson (JString "X")]}
           (Demo.used (Demo.answers 4)) _ ltac:(discriminate) Hrun).
Defined.

(** An update of ["__proto__"] with a partial record that has a field of
    that name is not discarded: after it the fetch makes an own property,
    where without it the fetch replaces the prototype. *)
Example fetchServerData_keeps_update_of_proto :
  fetchServerData "tok" "__proto__" (Demo.fresh (Demo.answers 4))
  = (Return (), (fetchServerData "tok" "__proto__" (Demo.fresh (Demo.answers 4))).2) ∧
  own (serverData (store (fetchServerData "tok" "__proto__"
                            (Demo.fresh (Demo.answers 4))).2)) !! "__proto__" = None ∧
  is_Some
    (own (serverData
            (store (fetchServerData "tok" "__proto__"
                      (updateServerData "__proto__" {["__proto__" := VJson JNull]}
                         (Demo.fresh (Demo.answers 4))).2).2)) !! "__proto__").
Proof. split; [reflexivity|]. split; [reflexivity|]. eexists. reflexivity. Qed.

Lemma failed_fetch_then_clearError_witness :
  clearError (fetchServerData "tok" "srv1" (Demo.used (Demo.answers 2))).2
  = (Return (),
     mkWorld {| serverData := serverData (store (Demo.used (Demo.answers 2)));
                error := None |}
       (backend (fetchServerData "tok" "srv1" (Demo.used (Demo.answers 2))).2)
       (console (fetchServerData "tok" "srv1" (Demo.used (Demo.answers 2))).2)) ∧
  hasError (store (clearError (fetchServerData "tok" "srv1" (Demo.used (Demo.answers 2))).2).2)
  = false.
Proof.
  apply (failed_fetch_then_clearError "tok" "srv1" (Demo.used (Demo.answers 2))
           (ThrownError Demo.offline)).
  reflexivity.
Defined.
